(** * A shallow embedding of the tool-invocation dispatch loop

    The development follows the Python sources:
    - [src/tool_agent.py]: [extract_json_from_text], [extract_tool_result_text]
      and one iteration of the loop of [chat_with_tools];
    - [src/core/claude.py]: [Claude.strip_thinking], [Claude.text_from_message];
    - [src/mcp_server.py]: the document store and [edit_document].

    Conventions.  A Python [str] is a [string]; its characters are the code
    points 0..255.  A [dict] with string keys is a [gmap string _] (Python
    compares dicts regardless of insertion order).  A value produced by
    [json.loads] is a [json].  Library code that is not part of the
    repository ([json.loads], [str()] of a non-string value, the completion
    endpoint, the MCP session) is gathered in the class [Runtime]. *)

From Stdlib Require Import ZArith String Ascii List Floats.SpecFloat Lia.
From Stdlib Require Import DecimalString DecimalNat.
From stdpp Require Import gmap strings list fin_maps.

Set Warnings "-register-all".
Set Default Proof Using "Type".

(* ================================================================== *)
(** * Part I: definitions *)
(* ================================================================== *)

(** ** Python strings *)

Module Str.

(** [str.isspace] for one character, which is also the class [\s] of
    [re] on [str] patterns: TAB..CR, FS..US, SPACE, NEL and NBSP. *)
Definition isspace (c : ascii) : bool :=
  let n := N_of_ascii c in
  ((9 <=? n) && (n <=? 13) || (28 <=? n) && (n <=? 32)
   || (n =? 133) || (n =? 160))%N.

Fixpoint all (p : ascii → bool) (s : string) : bool :=
  match s with
  | EmptyString => true
  | String c s' => p c && all p s'
  end.

Fixpoint lstrip (s : string) : string :=
  match s with
  | EmptyString => EmptyString
  | String c s' => if isspace c then lstrip s' else s
  end.

Fixpoint rstrip (s : string) : string :=
  match s with
  | EmptyString => EmptyString
  | String c s' =>
      match rstrip s' with
      | EmptyString => if isspace c then EmptyString else String c EmptyString
      | r => String c r
      end
  end.

(** [s.strip()] *)
Definition strip (s : string) : string := rstrip (lstrip s).

(** [Some rest] when [s = p ++ rest]: the text that follows the prefix. *)
Fixpoint drop_prefix (p s : string) : option string :=
  match p, s with
  | EmptyString, _ => Some s
  | String a p', String b s' =>
      if Ascii.eqb a b then drop_prefix p' s' else None
  | String _ _, EmptyString => None
  end.

Definition startswith (s p : string) : bool :=
  match drop_prefix p s with Some _ => true | None => false end.

(** [sub in s] for two strings. *)
Fixpoint contains (sub s : string) : bool :=
  startswith s sub
  || match s with
     | EmptyString => false
     | String _ s' => contains sub s'
     end.

(** The first [n] characters of [s]. *)
Fixpoint take (n : nat) (s : string) : string :=
  match n, s with
  | S n', String c s' => String c (take n' s')
  | _, _ => EmptyString
  end.

(** [sep.join(parts)] *)
Fixpoint join (sep : string) (parts : list string) : string :=
  match parts with
  | [] => EmptyString
  | [p] => p
  | p :: rest => p +:+ sep +:+ join sep rest
  end.

(** [s.lower()] on the code points 0..255: A..Z and the accented
    capitals 192..222 (except the multiplication sign 215) move up by 32. *)
Definition lower_char (c : ascii) : ascii :=
  let n := N_of_ascii c in
  if ((65 <=? n) && (n <=? 90)
      || (192 <=? n) && (n <=? 222) && negb (n =? 215))%N
  then ascii_of_N (n + 32) else c.

Fixpoint lower (s : string) : string :=
  match s with
  | EmptyString => EmptyString
  | String c s' => String (lower_char c) (lower s')
  end.

(** [s.replace(old, new)] for a non-empty [old]: the text is scanned from
    the left; [skip] counts the characters of an occurrence that was
    already replaced and that the scan steps over. *)
Fixpoint replace_scan (old new s : string) (skip : nat) : string :=
  match s with
  | EmptyString => EmptyString
  | String c s' =>
      match skip with
      | S n => replace_scan old new s' n
      | O =>
          if startswith s old
          then new +:+ replace_scan old new s' (String.length old - 1)
          else String c (replace_scan old new s' 0)
      end
  end.

(** [s.replace(old, new)] for the empty [old]: [new] goes before every character and at the end. *)
Fixpoint interleave (new s : string) : string :=
  match s with
  | EmptyString => new
  | String c s' => new +:+ String c (interleave new s')
  end.

Definition replace (s old new : string) : string :=
  match old with
  | EmptyString => interleave new s
  | String _ _ => replace_scan old new s 0
  end.

End Str.

(** ** The fragment of Python's [re] used by the sources

    Both modules use patterns made of literal text, a starred character
    class (greedy [\s*] and [.*], lazy [.*?], all under [re.DOTALL]) and one
    capturing group.  The matcher backtracks like [re] does: alternatives
    are tried in priority order and the first overall success wins. *)

Module Re.

Inductive regex : Type :=
| Lit (p : string)                             (* literal text *)
| Star (greedy : bool) (cls : ascii → bool)    (* cls* or cls*? *)
| Group (r : regex)                            (* ( r ), group 1 *)
| Seq (r1 r2 : regex).                         (* r1 r2 *)

(** [\s] and, under DOTALL, [.] *)
Definition space : ascii → bool := Str.isspace.
Definition any : ascii → bool := λ _, true.

Section Matcher.
Context {A : Type}.

(** Greedy star: take one more character first, give back on failure. *)
Fixpoint star_greedy (cls : ascii → bool) (s : string)
    (k : string → option A) : option A :=
  match s with
  | String c s' =>
      if cls c then
        match star_greedy cls s' k with
        | Some r => Some r
        | None => k s
        end
      else k s
  | EmptyString => k s
  end.

(** Lazy star: try to go on first, take one more character on failure. *)
Fixpoint star_lazy (cls : ascii → bool) (s : string)
    (k : string → option A) : option A :=
  match k s with
  | Some r => Some r
  | None =>
      match s with
      | String c s' => if cls c then star_lazy cls s' k else None
      | EmptyString => None
      end
  end.

(** [run r s g k]: match [r] at the start of [s]; [g] is the text of
    group 1 so far; [k] continues with the rest of the text. *)
Fixpoint run (r : regex) (s : string) (g : option string)
    (k : string → option string → option A) : option A :=
  match r with
  | Lit p =>
      match Str.drop_prefix p s with
      | Some s' => k s' g
      | None => None
      end
  | Star true cls => star_greedy cls s (λ s', k s' g)
  | Star false cls => star_lazy cls s (λ s', k s' g)
  | Group r1 =>
      run r1 s g
        (λ s' _, k s' (Some (Str.take (String.length s - String.length s') s)))
  | Seq r1 r2 => run r1 s g (λ s' g', run r2 s' g' k)
  end.
End Matcher.

(** A match: the text before it, group 1, and the text after it. *)
Record found : Type := Found {
  before : string;
  group1 : option string;
  after : string
}.

(** The pattern matched at the very start of [s]. *)
Definition match_here (r : regex) (s : string) : option found :=
  run r s None (λ s' g, Some (Found EmptyString g s')).

(** [re.search(r, s)]: the leftmost position where the pattern matches. *)
Fixpoint search (r : regex) (s : string) : option found :=
  match match_here r s with
  | Some m => Some m
  | None =>
      match s with
      | EmptyString => None
      | String c s' =>
          match search r s' with
          | Some m => Some (Found (String c (before m)) (group1 m) (after m))
          | None => None
          end
      end
  end.

(** [re.sub(r, repl, s)] for a pattern that has no empty match and a
    replacement without group references.  Matches are found from the left
    and do not overlap: after a match of [n] characters the scan steps over
    the [n - 1] characters that follow its first one. *)
Fixpoint sub_scan (r : regex) (repl s : string) (skip : nat) : string :=
  match s with
  | EmptyString => EmptyString
  | String c s' =>
      match skip with
      | S n => sub_scan r repl s' n
      | O =>
          match match_here r s with
          | Some m =>
              repl +:+ sub_scan r repl s'
                         (String.length s - String.length (after m) - 1)
          | None => String c (sub_scan r repl s' 0)
          end
      end
  end.

Definition sub (r : regex) (repl s : string) : string := sub_scan r repl s 0.

End Re.

(** ** JSON values and the Python operations applied to them *)

(** What [json.loads] returns: [None], [bool], [int], [float], [str], [list]
    and [dict] with string keys. *)
Inductive json : Type :=
| JNull
| JBool (b : bool)
| JInt (z : Z)
| JFloat (f : spec_float)
| JStr (s : string)
| JArr (l : list json)
| JObj (o : gmap string json).

(** The exceptions the loop can meet. [Raised] stands for an error raised by
    an external collaborator, with its message. *)
Inductive py_error : Type :=
| TypeError
| AttributeError
| KeyError (k : string)
| ValueError (msg : string)
| RecursionError
| EOFError
| Raised (msg : string).

Inductive result (A : Type) : Type :=
| Ok (a : A)
| Err (e : py_error).
Arguments Ok {A} a.
Arguments Err {A} e.

Definition bind {A B : Type} (m : result A) (f : A → result B) : result B :=
  match m with
  | Ok a => f a
  | Err e => Err e
  end.

Declare Scope py_scope.
Delimit Scope py_scope with py.
Notation "'do' x <- m ; k" := (bind m (λ x, k))
  (at level 10, x name, m at level 100, k at level 200) : py_scope.
Notation "'do' ' p <- m ; k" := (bind m (λ x, match x with p => k end))
  (at level 10, p pattern, m at level 100, k at level 200) : py_scope.

Module Py.

(** Truth value of a JSON value, as [x or y] tests it. *)
Definition truthy (v : json) : bool :=
  match v with
  | JNull => false
  | JBool b => b
  | JInt z => negb (z =? 0)%Z
  | JFloat (S754_zero _) => false
  | JFloat _ => true
  | JStr s => negb (String.eqb s EmptyString)
  | JArr l => match l with [] => false | _ => true end
  | JObj o => negb (bool_decide (o = ∅))
  end.

(** [x or y] *)
Definition or (x y : json) : json := if truthy x then x else y.

Definition is_str (k : string) (v : json) : bool :=
  match v with
  | JStr s => String.eqb s k
  | _ => false
  end.

(** [k in c] for a string [k]. *)
Definition contains (k : string) (c : json) : result bool :=
  match c with
  | JObj o => Ok (bool_decide (is_Some (o !! k)))
  | JArr l => Ok (existsb (is_str k) l)
  | JStr s => Ok (Str.contains k s)
  | _ => Err TypeError
  end.

(** [c.pop(k)] for a string [k]: the value and the container afterwards. *)
Definition pop (k : string) (c : json) : result (json * json) :=
  match c with
  | JObj o =>
      match o !! k with
      | Some v => Ok (v, JObj (delete k o))
      | None => Err (KeyError k)
      end
  | JArr _ => Err TypeError
  | _ => Err AttributeError
  end.

(** [c[k] = v] for a string [k]. *)
Definition setitem (k : string) (v : json) (c : json) : result json :=
  match c with
  | JObj o => Ok (JObj (<[k := v]> o))
  | _ => Err TypeError
  end.

(** [isinstance(obj, dict) and k in obj] *)
Definition dict_has (k : string) (obj : json) : bool :=
  match obj with
  | JObj o => bool_decide (is_Some (o !! k))
  | _ => false
  end.

End Py.

(** ** The model gateway: [src/core/claude.py] *)

(** [LocalMessage]: [content] is declared as a list of blocks (dicts), but
    [text_from_message] also accepts a plain string and any other value. *)
Record LocalMessage : Type := {
  content : json;
  stop_reason : string
}.

(** ** Tool results: the types of the MCP library seen by the agent *)

Inductive content_block : Type :=
| TextContent (text : string)
| OtherContent (data : json).   (* image, audio, resource link, ... *)

Record CallToolResult : Type := {
  result_content : list content_block;
  structuredContent : option (gmap string json);
  isError : bool
}.

(** What [mcp_client.call_tool] may hand back: a [CallToolResult], or
    anything else ([None], for instance). *)
Inductive tool_result : Type :=
| IsCallToolResult (r : CallToolResult)
| OtherResult (v : json).

(** ** Code outside the repository *)

(** What [json.loads(text)] does: it returns a value, it raises
    [json.JSONDecodeError], or it raises something else ([ValueError] on an
    integer literal of more than 4300 digits, [RecursionError] on brackets
    nested too deep). *)
Inductive loaded : Type :=
| Loaded (obj : json)
| NotJson
| LoadRaised (e : py_error).

Class Runtime : Type := {
  json_loads : string → loaded;
  (** [str(v)] for a value that is not a [str]. *)
  py_repr : json → string;
  (** [str(result.content)] and [str(result)]. *)
  repr_content : list content_block → string;
  repr_result : tool_result → string;
  (** [claude.chat(messages=..., temperature=0.0)] on a list of role and
      content pairs; [Err] when the round trip raises. *)
  claude_chat : list (string * string) → result LocalMessage;
  (** [await mcp_client.call_tool(tool_name, arguments)]; [Err] when the
      call raises an [Exception]. *)
  call_tool : json → json → result tool_result
}.

(** [str(v)], also what an f-string does with [{v}]. *)
Definition py_str `{Runtime} (v : json) : string :=
  match v with
  | JStr s => s
  | _ => py_repr v
  end.

Module Claude.

(** The pattern [\[THINK\].*?\[/THINK\]] with [re.DOTALL]. *)
Definition think_block : Re.regex :=
  Re.Seq (Re.Lit "[THINK]") (Re.Seq (Re.Star false Re.any) (Re.Lit "[/THINK]")).

Definition strip_thinking (text : string) : string :=
  let cleaned := Re.sub think_block EmptyString text in
  Str.strip cleaned.

(** The loop over [message.content] when it is a list: the [parts]. *)
Fixpoint block_parts `{Runtime} (blocks : list json) : list string :=
  match blocks with
  | [] => []
  | block :: rest =>
      match block with
      | JObj d =>
          match d !! "text" with
          | Some t => py_str t :: block_parts rest
          | None => py_str block :: block_parts rest
          end
      | JStr s => s :: block_parts rest
      | _ => block_parts rest
      end
  end.

Definition raw_text `{Runtime} (message : LocalMessage) : string :=
  match content message with
  | JArr blocks => Str.join (String "010"%char EmptyString) (block_parts blocks)
  | JStr s => s
  | other => py_str other
  end.

Definition text_from_message `{Runtime} (message : LocalMessage) : string :=
  strip_thinking (raw_text message).

End Claude.

(** ** The agent: [src/tool_agent.py] *)

Module Agent.

(** The body [(\{.*\})] shared by the two patterns. *)
Definition braces : Re.regex :=
  Re.Group (Re.Seq (Re.Lit "{") (Re.Seq (Re.Star true Re.any) (Re.Lit "}"))).

(** [```json\s*(\{.*\})\s*```] with [re.DOTALL]. *)
Definition json_fence : Re.regex :=
  Re.Seq (Re.Lit "```json")
    (Re.Seq (Re.Star true Re.space)
       (Re.Seq braces (Re.Seq (Re.Star true Re.space) (Re.Lit "```")))).

(** [```\s*(\{.*\})\s*```] with [re.DOTALL]. *)
Definition any_fence : Re.regex :=
  Re.Seq (Re.Lit "```")
    (Re.Seq (Re.Star true Re.space)
       (Re.Seq braces (Re.Seq (Re.Star true Re.space) (Re.Lit "```")))).

(** [m.group(1)]; group 1 takes part in every match of the two patterns. *)
Definition group (m : Re.found) : string :=
  match Re.group1 m with
  | Some g => g
  | None => EmptyString
  end.

Definition extract_json_from_text (text : string) : string :=
  let stripped := Str.strip text in
  match Re.search json_fence stripped with
  | Some m => Str.strip (group m)
  | None =>
      match Re.search any_fence stripped with
      | Some m => Str.strip (group m)
      | None => stripped
      end
  end.

(** The [for] loop of [extract_tool_result_text]: the text of the first
    [TextContent], if the loop returns. *)
Fixpoint first_text (blocks : list content_block) : option string :=
  match blocks with
  | [] => None
  | TextContent t :: _ => Some t
  | OtherContent _ :: rest => first_text rest
  end.

Definition extract_tool_result_text `{Runtime} (result : tool_result) : string :=
  match result with
  | IsCallToolResult r =>
      match structuredContent r ≫= (λ d, d !! "result") with
      | Some v => py_str v
      | None =>
          match result_content r with
          | [] => repr_result result
          | blocks =>
              match first_text blocks with
              | Some t => t
              | None => repr_content blocks
              end
          end
      end
  | OtherResult _ => repr_result result
  end.

(** *** Argument normalization, lines 157-171 *)

(** [arguments[canonical] = arguments.pop(alias)] *)
Definition rename (alias canonical : string) (arguments : json) : result json :=
  (do '(v, arguments) <- Py.pop alias arguments;
   Py.setitem canonical v arguments)%py.

Definition normalize_old (arguments : json) : result json :=
  (do has <- Py.contains "old_str" arguments;
   if negb has then
     do has <- Py.contains "old_string" arguments;
     if has then rename "old_string" "old_str" arguments
     else
       do has <- Py.contains "old" arguments;
       if has then rename "old" "old_str" arguments
       else Ok arguments
   else Ok arguments)%py.

Definition normalize_new (arguments : json) : result json :=
  (do has <- Py.contains "new_str" arguments;
   if negb has then
     do has <- Py.contains "new_string" arguments;
     if has then rename "new_string" "new_str" arguments
     else
       do has <- Py.contains "new_striing" arguments;
       if has then rename "new_striing" "new_str" arguments
       else
         do has <- Py.contains "new" arguments;
         if has then rename "new" "new_str" arguments
         else Ok arguments
   else Ok arguments)%py.

Definition normalize (tool_name arguments : json) : result json :=
  if Py.is_str "edit_document" tool_name then
    (do arguments <- normalize_old arguments;
     normalize_new arguments)%py
  else Ok arguments.

(** *** Interpreting one reply, lines 132-155 and 208-211 *)

(** [Failed] is no directive: it records that [json.loads] raised an
    exception other than [json.JSONDecodeError], the only one that line
    137 catches. *)
Inductive directive : Type :=
| Malformed (raw_text clean_text : string)
| Answer (answer : json)
| ToolCall (tool_name arguments : json)
| Unrecognized (obj : json)
| Failed (e : py_error).

(** [obj[k]] once [k in obj] is known; [JNull] is never reached. *)
Definition item (k : string) (obj : json) : json :=
  match obj with
  | JObj o => default JNull (o !! k)
  | _ => JNull
  end.

(** [obj.get("arguments", {}) or {}] *)
Definition get_arguments (obj : json) : json :=
  let got :=
    match obj with
    | JObj o => default (JObj ∅) (o !! "arguments")
    | _ => JObj ∅
    end in
  Py.or got (JObj ∅).

Definition classify (obj : json) : directive :=
  if Py.dict_has "answer" obj && negb (Py.dict_has "tool" obj) then
    Answer (item "answer" obj)
  else if Py.dict_has "tool" obj then
    ToolCall (item "tool" obj) (get_arguments obj)
  else Unrecognized obj.

Definition interpret `{Runtime} (raw_text : string) : directive :=
  let clean_text := extract_json_from_text raw_text in
  match json_loads clean_text with
  | NotJson => Malformed raw_text clean_text
  | LoadRaised e => Failed e
  | Loaded obj => classify obj
  end.

End Agent.

(** ** One iteration of the loop of [chat_with_tools], lines 114-211 *)

Module Loop.
Import Agent.

(** What the iteration prints, one constructor per [print] group. *)
Inductive output : Type :=
| OutBye                                               (* line 120 *)
| OutInvalidJson (raw_text clean_text : string)        (* lines 138-142 *)
| OutAnswer (answer : json)                            (* lines 147-149 *)
| OutToolRequest (tool_name arguments : json)          (* line 173 *)
| OutToolError (tool_name : json) (e : py_error)       (* line 178 *)
| OutToolResult (tool_name : json) (tool_text : string)  (* line 182 *)
| OutFinalAnswer (answer_text : string)                (* lines 203-205 *)
| OutNoAnswerNoTool (obj : json).                      (* lines 209-211 *)

(** What the iteration does, in order. *)
Inductive event : Type :=
| Chat (messages : list (string * string))    (* claude.chat *)
| CallTool (tool_name arguments : json)       (* mcp_client.call_tool *)
| Print (o : output).

(** How the iteration ends: [continue] (or the end of the body), [break],
    or an exception that nothing catches. *)
Inductive control : Type :=
| Continue
| Break
| Uncaught (e : py_error).

Definition n_tilde : string := String "241"%char EmptyString.
Definition nl : string := String "010"%char EmptyString.

Definition followup_system : string :=
  "Eres un asistente que responde en espa" +:+ n_tilde
  +:+ "ol de forma clara y directa.".

Definition followup_user `{Runtime} (user_input : string) (tool_name : json)
    (tool_text : string) : string :=
  "Pregunta original del usuario:" +:+ nl
  +:+ user_input +:+ nl +:+ nl
  +:+ "Resultado de la herramienta '" +:+ py_str tool_name +:+ "':" +:+ nl
  +:+ tool_text +:+ nl +:+ nl
  +:+ "Usa este resultado para responder al usuario. No vuelvas a usar herramientas. "
  +:+ "Responde SOLO con texto natural en espa" +:+ n_tilde +:+ "ol, sin JSON.".

Definition is_exit (s : string) : bool :=
  String.eqb s "salir" || String.eqb s "exit" || String.eqb s "quit".

(** The tool branch, lines 154-206. *)
Definition run_tool `{Runtime} (user_input : string) (tool_name arguments : json)
    : list event * control :=
  match normalize tool_name arguments with
  | Err e => ([], Uncaught e)
  | Ok arguments =>
      let request :=
        [Print (OutToolRequest tool_name arguments);
         CallTool tool_name arguments] in
      match call_tool tool_name arguments with
      | Err e => (request ++ [Print (OutToolError tool_name e)], Continue)
      | Ok tool_result =>
          let tool_text := extract_tool_result_text tool_result in
          let followup_messages :=
            [("system", followup_system);
             ("user", followup_user user_input tool_name tool_text)] in
          let done :=
            request ++ [Print (OutToolResult tool_name tool_text);
                        Chat followup_messages] in
          match claude_chat followup_messages with
          | Err e => (done, Uncaught e)
          | Ok second_response =>
              let answer_text := Claude.text_from_message second_response in
              (done ++ [Print (OutFinalAnswer answer_text)], Continue)
          end
      end
  end.

(** What follows the interpretation of the first reply. *)
Definition dispatch `{Runtime} (user_input : string) (d : directive)
    : list event * control :=
  match d with
  | Malformed raw_text clean_text =>
      ([Print (OutInvalidJson raw_text clean_text)], Continue)
  | Answer answer => ([Print (OutAnswer answer)], Continue)
  | ToolCall tool_name arguments => run_tool user_input tool_name arguments
  | Unrecognized obj => ([Print (OutNoAnswerNoTool obj)], Continue)
  | Failed e => ([], Uncaught e)
  end.

(** The body of [while True], given the line read by [input]. *)
Definition turn `{Runtime} (system_prompt line : string) : list event * control :=
  let user_input := Str.strip line in
  if String.eqb user_input EmptyString then ([], Continue)
  else if is_exit (Str.lower user_input) then ([Print OutBye], Break)
  else
    let messages := [("system", system_prompt); ("user", user_input)] in
    match claude_chat messages with
    | Err e => ([Chat messages], Uncaught e)
    | Ok first_response =>
        let raw_text := Claude.text_from_message first_response in
        let '(events, c) := dispatch user_input (interpret raw_text) in
        (Chat messages :: events, c)
    end.

(** The loop itself, on the lines that [input] returns one after the
    other; when they run out, [input] raises [EOFError]. *)
Fixpoint chat_with_tools `{Runtime} (system_prompt : string)
    (lines : list string) : list event * control :=
  match lines with
  | [] => ([], Uncaught EOFError)
  | line :: rest =>
      match turn system_prompt line with
      | (events, Continue) =>
          let '(later, c) := chat_with_tools system_prompt rest in
          (events ++ later, c)
      | stopped => stopped
      end
  end.

(** The events of a given kind in a trace. *)
Definition is_chat (e : event) : bool :=
  match e with Chat _ => true | _ => false end.
Definition is_call_tool (e : event) : bool :=
  match e with CallTool _ _ => true | _ => false end.
Definition chats (t : list event) : nat := length (filter is_chat t).
Definition tool_calls (t : list event) : nat := length (filter is_call_tool t).

End Loop.

(** ** The document server: [src/mcp_server.py] *)

Module Server.

(** The in-memory store [docs] at start-up. *)
Definition docs0 : gmap string string :=
  <["deposition.md" := "This deposition covers the testimony of Angela Smith, P.E."]>
  (<["report.pdf" := "The report details the state of a 20m condenser tower."]>
  (<["financials.docx" := "These financials outline the project's budget and expenditures."]>
  (<["outlook.pdf" := "This document presents the projected future performance of the system."]>
  (<["plan.md" := "The plan outlines the steps for the project's implementation."]>
  (<["spec.txt" := "These specifications define the technical requirements for the equipment."]>
   ∅))))).

Definition not_found (doc_id : string) : py_error :=
  ValueError ("Doc with id " +:+ doc_id +:+ " not found").

(** [read_document]: the store is only read. *)
Definition read_document (doc_id : string) (docs : gmap string string)
    : result string :=
  match docs !! doc_id with
  | None => Err (not_found doc_id)
  | Some text => Ok text
  end.

(** [edit_document]: what the call returns or raises, and the store
    afterwards. *)
Definition edit_document (doc_id old_str new_str : string)
    (docs : gmap string string) : result string * gmap string string :=
  match docs !! doc_id with
  | None => (Err (not_found doc_id), docs)
  | Some text =>
      let edited := Str.replace text old_str new_str in
      (Ok edited, <[doc_id := edited]> docs)
  end.

End Server.

(** ** A runtime to run the scenarios of the specification

    The theorems of Part II hold for every [Runtime].  The instance below is
    only used to evaluate the definitions on concrete replies: a decoder for
    a fragment of JSON (no escapes, no fractions), a scripted model and a
    tool provider backed by [Server] on the initial store. *)

Module Sample.

(** The double quote, and a string literal of JSON without escapes. *)
Definition dq : ascii := "034"%char.
Definition quoted (s : string) : string := String dq (s +:+ String dq EmptyString).

Definition json_space (c : ascii) : bool :=
  let n := N_of_ascii c in ((n =? 32) || (n =? 9) || (n =? 10) || (n =? 13))%N.

Fixpoint skip_ws (s : string) : string :=
  match s with
  | String c s' => if json_space c then skip_ws s' else s
  | EmptyString => s
  end.

(** After an opening quote: the characters up to the closing quote. *)
Fixpoint scan_string (s : string) : option (string * string) :=
  match s with
  | EmptyString => None
  | String c s' =>
      if Ascii.eqb c dq then Some (EmptyString, s')
      else if Ascii.eqb c "\"%char then None
      else
        match scan_string s' with
        | Some (t, r) => Some (String c t, r)
        | None => None
        end
  end.

Definition digit (c : ascii) : option Z :=
  let n := N_of_ascii c in
  if ((48 <=? n) && (n <=? 57))%N then Some (Z.of_N n - 48)%Z else None.

Fixpoint scan_digits (acc : Z) (s : string) : Z * string :=
  match s with
  | String c s' =>
      match digit c with
      | Some d => scan_digits (10 * acc + d)%Z s'
      | None => (acc, s)
      end
  | EmptyString => (acc, s)
  end.

Section Containers.
Variable value : string → option (json * string).

(** After [\[] and a first check for [\]]: the elements. *)
Fixpoint elements (fuel : nat) (s : string) (acc : list json)
    : option (json * string) :=
  match fuel with
  | O => None
  | S fuel =>
      match value s with
      | Some (v, r) =>
          match skip_ws r with
          | String c r' =>
              if Ascii.eqb c ","%char then elements fuel r' (acc ++ [v])
              else if Ascii.eqb c "]"%char then Some (JArr (acc ++ [v]), r')
              else None
          | EmptyString => None
          end
      | None => None
      end
  end.

(** After [{] and a first check for [}]: the members; a repeated key
    keeps its last value. *)
Fixpoint members (fuel : nat) (s : string) (acc : gmap string json)
    : option (json * string) :=
  match fuel with
  | O => None
  | S fuel =>
      match skip_ws s with
      | String q r =>
          if Ascii.eqb q dq then
            match scan_string r with
            | Some (k, r) =>
                match skip_ws r with
                | String c r =>
                    if Ascii.eqb c ":"%char then
                      match value r with
                      | Some (v, r) =>
                          match skip_ws r with
                          | String c r' =>
                              if Ascii.eqb c ","%char
                              then members fuel r' (<[k := v]> acc)
                              else if Ascii.eqb c "}"%char
                              then Some (JObj (<[k := v]> acc), r')
                              else None
                          | EmptyString => None
                          end
                      | None => None
                      end
                    else None
                | EmptyString => None
                end
            | None => None
            end
          else None
      | EmptyString => None
      end
  end.
End Containers.

Definition literal (word : string) (v : json) (s : string)
    : option (json * string) :=
  match Str.drop_prefix word s with
  | Some r => Some (v, r)
  | None => None
  end.

Fixpoint value (fuel : nat) (s : string) : option (json * string) :=
  match fuel with
  | O => None
  | S fuel =>
      match skip_ws s with
      | EmptyString => None
      | String c r =>
          if Ascii.eqb c "{"%char then
            match skip_ws r with
            | String "}"%char r' => Some (JObj ∅, r')
            | _ => members (value fuel) (String.length s) r ∅
            end
          else if Ascii.eqb c "["%char then
            match skip_ws r with
            | String "]"%char r' => Some (JArr [], r')
            | _ => elements (value fuel) (String.length s) r []
            end
          else if Ascii.eqb c dq then
            match scan_string r with
            | Some (t, r') => Some (JStr t, r')
            | None => None
            end
          else if Ascii.eqb c "-"%char then
            match r with
            | String d _ =>
                match digit d with
                | Some _ => let '(n, r') := scan_digits 0 r in Some (JInt (- n), r')
                | None => None
                end
            | EmptyString => None
            end
          else
            match digit c with
            | Some _ =>
                let '(n, r') := scan_digits 0 (String c r) in Some (JInt n, r')
            | None =>
                match literal "true" (JBool true) (String c r) with
                | Some x => Some x
                | None =>
                    match literal "false" (JBool false) (String c r) with
                    | Some x => Some x
                    | None => literal "null" JNull (String c r)
                    end
                end
            end
      end
  end.

(** One value, then nothing but white space. *)
Definition loads (s : string) : option json :=
  match value (S (String.length s)) s with
  | Some (v, r) =>
      match skip_ws r with
      | EmptyString => Some v
      | String _ _ => None
      end
  | None => None
  end.

(** The digits at the head of a text, counted, and what follows them. *)
Fixpoint literal_digits (s : string) : nat * string :=
  match s with
  | String c s' =>
      match digit c with
      | Some _ => let '(n, r) := literal_digits s' in (S n, r)
      | None => (0, s)
      end
  | EmptyString => (0, s)
  end.

Definition max_str_digits : nat := 4300.

Definition too_many_digits : string :=
  "Exceeds the limit (4300 digits) for integer string conversion".

Definition is_fraction (r : string) : bool :=
  match r with
  | String c _ =>
      Ascii.eqb c "."%char || Ascii.eqb c "e"%char || Ascii.eqb c "E"%char
  | EmptyString => false
  end.

(** [json.loads] on this fragment.  The decoder converts an integer
    literal with [int], which refuses a literal of more than 4300 digits
    with a [ValueError] that is not a [json.JSONDecodeError]; the literal
    looked at here is the one that opens the text. *)
Definition decoder (s : string) : loaded :=
  let t := skip_ws s in
  let t := match t with String "-"%char r => r | _ => t end in
  let '(n, r) := literal_digits t in
  if Nat.ltb max_str_digits n && negb (is_fraction r)
  then LoadRaised (ValueError too_many_digits)
  else match loads s with
       | Some v => Loaded v
       | None => NotJson
       end.

Fixpoint ones (n : nat) : string :=
  match n with
  | O => EmptyString
  | S n => String "1"%char (ones n)
  end.

Definition as_str (v : option json) : string :=
  match v with
  | Some (JStr s) => s
  | _ => EmptyString
  end.

(** The provider: the two tools of [Server] on the initial store; any
    other name raises. *)
Definition provider (tool_name arguments : json) : result tool_result :=
  let text (r : result string) : result tool_result :=
    match r with
    | Ok t => Ok (IsCallToolResult
                    {| result_content := [TextContent t];
                       structuredContent := Some {[ "result" := JStr t ]};
                       isError := false |})
    | Err e => Err e
    end in
  match tool_name, arguments with
  | JStr name, JObj a =>
      if String.eqb name "read_doc_contents" then
        text (Server.read_document (as_str (a !! "doc_id")) Server.docs0)
      else if String.eqb name "edit_document" then
        text (Server.edit_document (as_str (a !! "doc_id"))
                (as_str (a !! "old_str")) (as_str (a !! "new_str"))
                Server.docs0).1
      else Err (Raised ("Unknown tool: " +:+ name))
  | _, _ => Err (Raised "invalid call")
  end.

Definition reply (text : string) : LocalMessage :=
  {| content := JArr [JObj (<["type" := JStr "text"]> {[ "text" := JStr text ]})];
     stop_reason := "end" |}.

(** The scripted model: the reply depends on the last turn of the
    conversation only. *)
Definition model (messages : list (string * string)) : result LocalMessage :=
  match last messages with
  | Some (_, question) =>
      if String.eqb question "hola" then
        Ok (reply "Lo siento, no puedo ayudar.")
      else if String.eqb question "lee el informe" then
        Ok (reply ("```json" +:+ Loop.nl
                   +:+ "{" +:+ quoted "tool" +:+ ": " +:+ quoted "read_doc_contents"
                   +:+ ", " +:+ quoted "arguments" +:+ ": {"
                   +:+ quoted "doc_id" +:+ ": " +:+ quoted "report.pdf" +:+ "}}"
                   +:+ Loop.nl +:+ "```"))
      else if String.eqb question "usa otra" then
        Ok (reply ("{" +:+ quoted "tool" +:+ ": " +:+ quoted "unknown_tool"
                   +:+ ", " +:+ quoted "arguments" +:+ ": {}}"))
      else if String.eqb question "cuenta" then
        Ok (reply (ones 4301))
      else Ok (reply "[THINK]pensando[/THINK] La torre mide 20m.")
  | None => Err (Raised "no messages")
  end.

(** Replies with a tagged fence, with a bare fence and without fence. *)
Definition answer_x : string :=
  "{" +:+ quoted "answer" +:+ ": " +:+ quoted "X" +:+ "}".
Definition reply_tagged : string :=
  "Claro: ```json" +:+ Loop.nl +:+ answer_x +:+ Loop.nl +:+ "``` listo ".

(** Arguments as a model may name them. *)
Definition args_alias_new : gmap string json :=
  <["old_string" := JStr "foo"]> {[ "new" := JStr "bar" ]}.
Definition args_misspelled : gmap string json :=
  <["old_string" := JStr "foo"]> {[ "new_striing" := JStr "bar" ]}.
Definition args_canonical : gmap string json :=
  <["old_str" := JStr "foo"]> {[ "new_str" := JStr "bar" ]}.
Definition args_both : gmap string json :=
  <["old_str" := JStr "foo"]> {[ "old_string" := JStr "baz" ]}.
Definition args_two_aliases : gmap string json :=
  <["old_string" := JStr "foo"]> {[ "old" := JStr "baz" ]}.

(** A tool directive whose arguments are an empty list. *)
Definition obj_list_arguments : gmap string json :=
  <["tool" := JStr "read_doc_contents"]> {[ "arguments" := JArr [] ]}.

(** Tool results of the four shapes told apart by the agent. *)
Definition result_structured : CallToolResult :=
  {| result_content := [TextContent "shown"];
     structuredContent := Some {[ "result" := JStr "structured" ]};
     isError := false |}.
Definition result_blocks : CallToolResult :=
  {| result_content := [OtherContent JNull; TextContent "first"; TextContent "second"];
     structuredContent := None;
     isError := false |}.
Definition result_no_text : CallToolResult :=
  {| result_content := [OtherContent JNull];
     structuredContent := Some {[ "status" := JStr "ok" ]};
     isError := false |}.
Definition result_empty : CallToolResult :=
  {| result_content := []; structuredContent := None; isError := true |}.

Definition runtime : Runtime := {|
  json_loads := decoder;
  py_repr := λ _, "<value>";
  repr_content := λ _, "<content>";
  repr_result := λ _, "<result>";
  claude_chat := model;
  call_tool := provider
|}.

End Sample.

(** ** What the specification says, stated on texts and mappings

    These definitions follow the words of the specification; Part II
    compares them with the definitions taken from the sources. *)

Module Spec.

(** [p] occurs in [s]. *)
Definition occurs (p s : string) : Prop :=
  ∃ pre post, s = pre +:+ p +:+ post.

(** In [pre ++ p] the text [p] occurs at the end only: in a text that
    starts with [pre ++ p], this is the leftmost occurrence of [p]. *)
Definition leftmost (p pre : string) : Prop :=
  ∀ pre' post', pre +:+ p = pre' +:+ p +:+ post' → post' = EmptyString.

(** The language of a pattern, with the text of its group (if it has one). *)
Inductive Matches : Re.regex → string → option string → Prop :=
| M_lit p : Matches (Re.Lit p) p None
| M_star greedy cls w :
    Str.all cls w = true → Matches (Re.Star greedy cls) w None
| M_group r w o : Matches r w o → Matches (Re.Group r) w (Some w)
| M_seq r1 r2 w1 w2 o1 o2 :
    Matches r1 w1 o1 → Matches r2 w2 o2 →
    Matches (Re.Seq r1 r2) (w1 +:+ w2)
      (match o2 with Some _ => o2 | None => o1 end).






(** A text without its reasoning blocks: blocks are paired from the left,
    an opening marker with the nearest closing marker that follows it. *)
Inductive unthought : string → string → Prop :=
| un_done s :
    ¬ (∃ pre inner post,
         s = pre +:+ "[THINK]" +:+ inner +:+ "[/THINK]" +:+ post) →
    unthought s s
| un_block pre inner post out :
    leftmost "[THINK]" pre →
    leftmost "[/THINK]" inner →
    unthought post out →
    unthought (pre +:+ "[THINK]" +:+ inner +:+ "[/THINK]" +:+ post)
              (pre +:+ out).

(** [t] is [s] without its surrounding white space. *)
Definition trimmed (s t : string) : Prop :=
  (∃ ws1 ws2,
     s = ws1 +:+ t +:+ ws2
     ∧ Str.all Str.isspace ws1 = true
     ∧ Str.all Str.isspace ws2 = true)
  ∧ (∀ c r, t = String c r → Str.isspace c = false)
  ∧ (∀ r c, t = r +:+ String c EmptyString → Str.isspace c = false).

(** Every occurrence of a non-empty [old] replaced by [new], occurrences
    being taken from the left and not overlapping. *)
Inductive replaced (old new : string) : string → string → Prop :=
| rep_none s : ¬ occurs old s → replaced old new s s
| rep_next pre post out :
    leftmost old pre →
    replaced old new post out →
    replaced old new (pre +:+ old +:+ post) (pre +:+ new +:+ out).

(** [new] put before every character of a text and after the last one:
    what replacing the empty text gives. *)
Inductive spread (new : string) : string → string → Prop :=
| spread_end : spread new EmptyString new
| spread_next c s out :
    spread new s out → spread new (String c s) (new +:+ String c out).

(** The alias table of the document-editing tool: canonical name, then
    its aliases in priority order. *)
Definition alias_table : list (string * list string) :=
  [("old_str", ["old_string"; "old"]);
   ("new_str", ["new_string"; "new_striing"; "new"])].

(** The first alias present in the mapping. *)
Fixpoint first_present (aliases : list string) (arguments : gmap string json)
    : option (string * json) :=
  match aliases with
  | [] => None
  | a :: rest =>
      match arguments !! a with
      | Some v => Some (a, v)
      | None => first_present rest arguments
      end
  end.

(** One row of the table: a canonical parameter that is absent takes the
    value of the first alias present, and that alias is removed. *)
Definition apply_row (row : string * list string)
    (arguments : gmap string json) : gmap string json :=
  match arguments !! row.1 with
  | Some _ => arguments
  | None =>
      match first_present row.2 arguments with
      | Some (a, v) => <[row.1 := v]> (delete a arguments)
      | None => arguments
      end
  end.

Definition normalized (arguments : gmap string json) : gmap string json :=
  foldl (λ acc row, apply_row row acc) arguments alias_table.

Definition is_alias (k : string) : bool :=
  existsb (λ row : string * list string, existsb (String.eqb k) row.2)
    alias_table.

(** An alias stays exactly when the canonical name, or an alias of higher
    priority, was supplied with it. *)
Fixpoint outranked (canonical : string) (aliases : list string) (k : string)
    (arguments : gmap string json) : bool :=
  match aliases with
  | [] => false
  | a :: rest =>
      if String.eqb a k then bool_decide (is_Some (arguments !! canonical))
      else bool_decide (is_Some (arguments !! a))
           || outranked canonical rest k arguments
  end.

Definition shadowed (k : string) (arguments : gmap string json) : bool :=
  existsb (λ row : string * list string,
             existsb (String.eqb k) row.2
             && outranked row.1 row.2 k arguments)
    alias_table.

(** A block recognized as plain text. *)
Definition is_text (b : content_block) : bool :=
  match b with
  | TextContent _ => true
  | OtherContent _ => false
  end.

(** The result carries no structured payload with a "result" field. *)
Definition no_result_field (r : CallToolResult) : Prop :=
  ∀ payload, structuredContent r = Some payload → payload !! "result" = None.

End Spec.

(* ================================================================== *)
(** * Part I, continued: the code around the loop

    - [src/tool_agent.py]: [build_tools_description], the choice of the model
      and the system prompt of [chat_with_tools];
    - [src/core/claude.py]: [Claude.__init__], [Claude.chat], the helpers
      [_message_content_to_text], [_coerce_to_text], [add_user_message] and
      [add_assistant_message];
    - [src/mcp_server.py]: the resources and the prompts;
    - [src/mcp_client.py]: [MCPClient];
    - [src/main.py]: the settings and the registry of clients. *)
(* ================================================================== *)

(** ** Characters that a literal cannot hold *)

Module Chr.

Definition nl : string := String "010"%char EmptyString.
Definition quote : string := String "034"%char EmptyString.

(** A letter of Latin-1, by its code point. *)
Definition latin (n : nat) : string := String (ascii_of_nat n) EmptyString.

Definition is_nl (c : ascii) : bool := Ascii.eqb c "010"%char.

End Chr.

(** ** [x or y] on values that are a [str] or [None] *)

Module Opt.

Definition truthy (x : option string) : bool :=
  match x with
  | Some (String _ _) => true
  | _ => false
  end.

(** [x or y] *)
Definition or (x y : option string) : option string :=
  if truthy x then x else y.

(** [x or y] when [y] is a [str]: the result is a [str]. *)
Definition or_str (x : option string) (y : string) : string :=
  match x with
  | Some (String c s) => String c s
  | _ => y
  end.

End Opt.

(** ** The environment: [os.getenv] *)

Module Os.

(** [os.environ], once [load_dotenv()] has run. *)
Definition environ : Type := gmap string string.

(** [os.getenv(name)] *)
Definition getenv (env : environ) (name : string) : option string :=
  env !! name.

(** [os.getenv(name, default)]: the default stands for an unset variable
    only, a variable set to the empty text is returned as it is. *)
Definition getenv_default (env : environ) (name default : string) : string :=
  match env !! name with
  | Some v => v
  | None => default
  end.

End Os.

(** ** Exceptions outside the loop

    The modules below raise more than the loop meets: [exception] adds them
    to [py_error]. *)

Inductive exception : Type :=
| Builtin (e : py_error)
| IndexError
| KeyError_int (i : Z)                 (* a dict subscripted with an int *)
| ConnectionError (msg : string)
| AssertionError (msg : string)
| JSONDecodeError.

Inductive outcome (A : Type) : Type :=
| Return (a : A)
| Raise (e : exception).
Arguments Return {A} a.
Arguments Raise {A} e.

Definition and_then {A B : Type} (m : outcome A) (f : A → outcome B)
    : outcome B :=
  match m with
  | Return a => f a
  | Raise e => Raise e
  end.

Declare Scope exn_scope.
Delimit Scope exn_scope with exn.
Notation "'do' x <- m ; k" := (and_then m (λ x, k))
  (at level 10, x name, m at level 100, k at level 200) : exn_scope.

(** Subscripts and [get] on a value decoded from JSON. *)

Module Sub.

(** [v[k]] for a string [k] *)
Definition getitem (k : string) (v : json) : outcome json :=
  match v with
  | JObj o =>
      match o !! k with
      | Some x => Return x
      | None => Raise (Builtin (KeyError k))
      end
  | _ => Raise (Builtin TypeError)
  end.

(** [v[0]] *)
Definition getitem0 (v : json) : outcome json :=
  match v with
  | JArr (x :: _) => Return x
  | JArr [] => Raise IndexError
  | JStr (String c _) => Return (JStr (String c EmptyString))
  | JStr EmptyString => Raise IndexError
  | JObj _ => Raise (KeyError_int 0)
  | _ => Raise (Builtin TypeError)
  end.

(** [v.get(k, default)] *)
Definition get (k : string) (default : json) (v : json) : outcome json :=
  match v with
  | JObj o =>
      match o !! k with
      | Some x => Return x
      | None => Return default
      end
  | _ => Raise (Builtin AttributeError)
  end.

(** [v in {a, b}] for two strings: the value is hashed first, which a
    list and a dict refuse. *)
Definition in_pair (a b : string) (v : json) : outcome bool :=
  match v with
  | JStr s => Return (String.eqb s a || String.eqb s b)
  | JArr _ | JObj _ => Raise (Builtin TypeError)
  | _ => Return false
  end.

End Sub.

(** ** The model gateway, continued: [src/core/claude.py] *)

(** [requests.post(url, headers={"Authorization": authorization},
    json=payload, timeout=300)], then [raise_for_status()] and [json()] on
    the response: the decoded body, or what one of the three raises. *)
Class Endpoint : Type := {
  post_json : string → string → json → outcome json
}.

Module Gateway.

(** The attributes of a [Claude] object. *)
Record self : Type := {
  model : string;
  base_url : string;
  api_key : string
}.

Definition no_model : string :=
  "No se ha definido ning" +:+ Chr.latin 250
  +:+ "n modelo (LOCAL_LLM_MODEL / CLAUDE_MODEL).".

(** [Claude(model, base_url, api_key)], lines 37-56. *)
Definition __init__ (env : Os.environ) (model_arg : string)
    (base_url_arg api_key_arg : option string) : result self :=
  match Opt.or (Opt.or (Some model_arg) (Os.getenv env "LOCAL_LLM_MODEL"))
          (Os.getenv env "CLAUDE_MODEL") with
  | Some (String c m) =>
      Ok {| model := String c m;
            base_url :=
              Opt.or_str base_url_arg
                (Os.getenv_default env "LOCAL_LLM_BASE_URL"
                   "http://localhost:1234/v1");
            api_key :=
              Opt.or_str api_key_arg
                (Os.getenv_default env "LOCAL_LLM_API_KEY" "not-needed") |}
  | _ => Err (ValueError no_model)
  end.

(** [_message_content_to_text], lines 201-229.  The loop over a list is
    the one of [text_from_message]; here an empty [text_parts] falls
    through to [str(content)]. *)
Definition _message_content_to_text `{Runtime} (content : json) : string :=
  match content with
  | JStr s => s
  | JObj d =>
      match d !! "text" with
      | Some t => py_str t
      | None => py_str content
      end
  | JArr blocks =>
      match Claude.block_parts blocks with
      | [] => py_str content
      | text_parts => Str.join Chr.nl text_parts
      end
  | _ => py_str content
  end.

(** What [_coerce_to_text] accepts: a [LocalMessage] or any other value. *)
Inductive message_arg : Type :=
| OfLocalMessage (m : LocalMessage)
| OfValue (v : json).

(** [_coerce_to_text], lines 188-199.  The "text" of a dict of type "text"
    is returned as it is, whatever it is. *)
Definition _coerce_to_text `{Runtime} (message : message_arg) : json :=
  match message with
  | OfLocalMessage m => JStr (Claude.text_from_message m)
  | OfValue (JObj d) =>
      if match d !! "type" with
         | Some t => Py.is_str "text" t
         | None => false
         end
      then match d !! "text" with
           | Some t => t
           | None => JStr EmptyString
           end
      else JStr (py_str (JObj d))
  | OfValue v => JStr (py_str v)
  end.

(** A message of the history: [{"role": role, "content": content}]. *)
Definition entry (role content : json) : gmap string json :=
  <["role" := role]> {[ "content" := content ]}.

(** [add_user_message] and [add_assistant_message]: the list [messages]
    after the call. *)
Definition add_user_message `{Runtime} (messages : list (gmap string json))
    (message : message_arg) : list (gmap string json) :=
  let content := _coerce_to_text message in
  messages ++ [entry (JStr "user") content].

Definition add_assistant_message `{Runtime}
    (messages : list (gmap string json)) (message : message_arg)
    : list (gmap string json) :=
  let content := _coerce_to_text message in
  messages ++ [entry (JStr "assistant") content].

(** *** [chat], lines 121-183 *)

(** One message of the request. *)
Definition oa_message `{Runtime} (m : gmap string json) : gmap string json :=
  let role := match m !! "role" with Some r => r | None => JStr "user" end in
  let content :=
    match m !! "content" with Some c => c | None => JStr EmptyString end in
  let content_text := _message_content_to_text content in
  entry role (JStr content_text).

Definition oa_messages `{Runtime} (system : option string)
    (messages : list (gmap string json)) : list (gmap string json) :=
  match system with
  | Some (String c s) =>
      entry (JStr "system") (JStr (String c s)) :: map oa_message messages
  | _ => map oa_message messages
  end.

Definition payload `{Runtime} (me : self) (messages : list (gmap string json))
    (system : option string) (temperature : spec_float)
    (stop_sequences : option (list string)) : gmap string json :=
  let stop_sequences :=
    match stop_sequences with Some (x :: l) => x :: l | _ => [] end in
  let payload :=
    <["model" := JStr (model me)]>
    (<["messages" := JArr (JObj <$> oa_messages system messages)]>
    {[ "temperature" := JFloat temperature ]}) in
  match stop_sequences with
  | [] => payload
  | _ => <["stop" := JArr (JStr <$> stop_sequences)]> payload
  end.

(** From the decoded body to the [LocalMessage], lines 169-183. *)
Definition to_message (data : json) : outcome LocalMessage :=
  (do choices <- Sub.getitem "choices" data;
   do choice <- Sub.getitem0 choices;
   do message <- Sub.getitem "message" choice;
   do text <- Sub.getitem "content" message;
   do finish_reason <- Sub.get "finish_reason" (JStr "stop") choice;
   do tool_use <- Sub.in_pair "tool_calls" "function_call" finish_reason;
   Return {| content := JArr [JObj (<["type" := JStr "text"]> {[ "text" := text ]})];
             stop_reason := if tool_use then "tool_use" else "end" |})%exn.

(** The arguments [tools], [thinking] and [thinking_budget] are ignored
    by the source and left out. *)
Definition chat `{Runtime} `{Endpoint} (me : self)
    (messages : list (gmap string json)) (system : option string)
    (temperature : spec_float) (stop_sequences : option (list string))
    : outcome LocalMessage :=
  (do data <- post_json (base_url me +:+ "/chat/completions")
                ("Bearer " +:+ api_key me)
                (JObj (payload me messages system temperature stop_sequences));
   to_message data)%exn.

(** The two messages that the loop sends, as dicts. *)
Definition as_dicts (messages : list (string * string))
    : list (gmap string json) :=
  map (λ m : string * string, entry (JStr m.1) (JStr m.2)) messages.

(** [0.0] *)
Definition zero : spec_float := S754_zero false.

End Gateway.

(** ** Before the loop: [src/tool_agent.py], lines 36-44 and 85-110 *)

Module Setup.

(** [types.Tool]: the name, and a description that may be [None]. *)
Record Tool : Type := {
  name : string;
  description : option string
}.

(** The line of a tool: its name, then its description, or nothing when
    the description is [None] or empty. *)
Definition tool_line (t : Tool) : string :=
  let desc := Opt.or_str (description t) EmptyString in
  "- " +:+ name t +:+ ": " +:+ desc.

Definition build_tools_description (tools : list Tool) : string :=
  Str.join Chr.nl (map tool_line tools).

(** Line 85. *)
Definition default_model : string := "mistralai/minstral-3-14b-reasoning".

Definition model_name (env : Os.environ) : string :=
  Opt.or_str
    (Opt.or (Os.getenv env "LOCAL_LLM_MODEL") (Os.getenv env "CLAUDE_MODEL"))
    default_model.

(** Line 86: [Claude(model=model_name)]. *)
Definition claude (env : Os.environ) : result Gateway.self :=
  Gateway.__init__ env (model_name env) None None.

(** The text of the system prompt before and after the tools. *)
Definition prompt_head : string :=
  let nl := Chr.nl in let latin := Chr.latin in
  "Eres un asistente que puede llamar herramientas externas a trav" +:+
  latin 233 +:+ "s de JSON." +:+ nl +:+ nl +:+
  "Tienes acceso a estas herramientas:" +:+ nl +:+ nl.

Definition prompt_tail : string :=
  let nl := Chr.nl in let latin := Chr.latin in let quote := Chr.quote in
  nl +:+ nl +:+ "Protocolo de respuesta OBLIGATORIO:" +:+ nl +:+
  "- Si quieres usar una herramienta, responde " +:+ latin 218 +:+
  "NICAMENTE con un JSON de este estilo:" +:+ nl +:+ "  {" +:+ quote +:+
  "tool" +:+ quote +:+ ": " +:+ quote +:+ "<nombre_de_la_herramienta>" +:+
  quote +:+ ", " +:+ quote +:+ "arguments" +:+ quote +:+ ": { ... }}" +:+
  nl +:+ nl +:+ "  Ejemplo:" +:+ nl +:+ "  {" +:+ quote +:+ "tool" +:+
  quote +:+ ": " +:+ quote +:+ "read_doc_contents" +:+ quote +:+ ", " +:+
  quote +:+ "arguments" +:+ quote +:+ ": {" +:+ quote +:+ "doc_id" +:+
  quote +:+ ": " +:+ quote +:+ "report.pdf" +:+ quote +:+ "}}" +:+ nl +:+
  nl +:+ "- Si ya tienes la respuesta final para el usuario, responde " +:+
  latin 218 +:+ "NICAMENTE con:" +:+ nl +:+ "  {" +:+ quote +:+
  "answer" +:+ quote +:+ ": " +:+ quote +:+ "<tu respuesta en espa" +:+
  latin 241 +:+ "ol para el usuario>" +:+ quote +:+ "}" +:+ nl +:+ nl +:+
  "- NO mezcles texto fuera del JSON." +:+ nl +:+
  "- NO expliques el JSON." +:+ nl +:+ "- NO a" +:+ latin 241 +:+
  "adas comentarios." +:+ nl +:+ "- NO uses bloques de c" +:+ latin 243 +:+
  "digo como ```json``` ni otros; responde solo con JSON plano." +:+ nl +:+
  "Solo JSON v" +:+ latin 225 +:+ "lido.".

(** Lines 88-110: the f-string, then [strip()]. *)
Definition system_prompt (tools_description : string) : string :=
  Str.strip
    (Chr.nl +:+ prompt_head +:+ tools_description +:+ prompt_tail +:+ Chr.nl).

End Setup.

(** ** The document server, continued: resources and prompts *)

Module Documents.

(** [fetch_doc] *)
Definition fetch_doc (doc_id : string) (docs : gmap string string)
    : result string :=
  match docs !! doc_id with
  | None => Err (Server.not_found doc_id)
  | Some text => Ok text
  end.

Definition rewrite_head : string :=
  let nl := Chr.nl in
  "You are an expert technical writer. Rewrite the following document " +:+
  "using clear, well-structured Markdown. Keep the meaning but improve " +:+
  "organization and readability. Use headings, bullet points, and tables " +:+
  "when appropriate." +:+ nl +:+ nl +:+ "DOCUMENT CONTENT:" +:+ nl.

Definition summarize_head : string :=
  let nl := Chr.nl in
  "Summarize the following document in a concise paragraph, " +:+
  "highlighting the most important technical and business points:" +:+
  nl +:+ nl +:+ "DOCUMENT CONTENT:" +:+ nl.

Definition format_head : string :=
  let nl := Chr.nl in
  "Your goal is to reformat a document using clean, professional " +:+
  "Markdown syntax." +:+ nl +:+ nl +:+ "Instructions:" +:+ nl +:+
  "- Add clear headings and subheadings with '#', '##', etc." +:+ nl +:+
  "- Use bullet lists and numbered lists where they make sense." +:+ nl +:+
  "- Use code blocks for technical snippets." +:+ nl +:+
  "- Keep the meaning of the document, but improve structure and clarity." +:+
  nl +:+ nl +:+ "Here is the document you must reformat:" +:+ nl +:+ nl.

(** The three prompts have the same shape: the guard, then a fixed text
    followed by the content. *)
Definition rewrite_doc_markdown (doc_id : string) (docs : gmap string string)
    : result string :=
  match docs !! doc_id with
  | None => Err (Server.not_found doc_id)
  | Some content => Ok (rewrite_head +:+ content)
  end.

Definition summarize_doc (doc_id : string) (docs : gmap string string)
    : result string :=
  match docs !! doc_id with
  | None => Err (Server.not_found doc_id)
  | Some content => Ok (summarize_head +:+ content)
  end.

Definition format_document (doc_id : string) (docs : gmap string string)
    : result string :=
  match docs !! doc_id with
  | None => Err (Server.not_found doc_id)
  | Some content => Ok (format_head +:+ content)
  end.

End Documents.

(** ** The store with its order

    [list_docs] returns the keys of [docs] in the order of the dict, which
    a [gmap] does not have.  Here the store is the list of its items, as
    Python keeps them: an assignment to a key that is present keeps its
    place, a new key goes to the end. *)

Module Ordered.

Definition store : Type := list (string * string).

Definition docs0 : store :=
  [("deposition.md", "This deposition covers the testimony of Angela Smith, P.E.");
   ("report.pdf", "The report details the state of a 20m condenser tower.");
   ("financials.docx", "These financials outline the project's budget and expenditures.");
   ("outlook.pdf", "This document presents the projected future performance of the system.");
   ("plan.md", "The plan outlines the steps for the project's implementation.");
   ("spec.txt", "These specifications define the technical requirements for the equipment.")].

(** [docs[doc_id]], if [doc_id in docs] *)
Fixpoint lookup (doc_id : string) (docs : store) : option string :=
  match docs with
  | [] => None
  | (k, v) :: rest => if String.eqb k doc_id then Some v else lookup doc_id rest
  end.

(** [docs[doc_id] = text] *)
Fixpoint assign (doc_id text : string) (docs : store) : store :=
  match docs with
  | [] => [(doc_id, text)]
  | (k, v) :: rest =>
      if String.eqb k doc_id then (k, text) :: rest
      else (k, v) :: assign doc_id text rest
  end.

Definition edit_document (doc_id old_str new_str : string) (docs : store)
    : result string * store :=
  match lookup doc_id docs with
  | None => (Err (Server.not_found doc_id), docs)
  | Some text =>
      let edited := Str.replace text old_str new_str in
      (Ok edited, assign doc_id edited docs)
  end.

(** [list_docs]: [list(docs.keys())] *)
Definition list_docs (docs : store) : list string := map fst docs.

(** The store without its order. *)
Definition to_map (docs : store) : gmap string string := list_to_map docs.

End Ordered.

(** ** The client of the document server: [src/mcp_client.py] *)

Module Mcp.

(** The contents of a resource: [types.TextResourceContents], or one
    without text ([types.BlobResourceContents]). *)
Inductive resource_contents : Type :=
| TextResourceContents (text : string) (mimeType : option string)
| BlobResourceContents (blob : string) (mimeType : option string).

(** What [list_tools()] and [list_prompts()] of the library return: a
    list, or an object whose attribute ([tools], [prompts]) may be
    missing or [None]. *)
Inductive listing (A : Type) : Type :=
| AsList (items : list A)
| AsObject (attribute : option (list A)).
Arguments AsList {A} items.
Arguments AsObject {A} attribute.

(** [types.Prompt], by its name. *)
Definition Prompt : Type := string.

(** The result of [get_prompt()]: an object whose attribute [messages]
    may be missing or [None]. *)
Record GetPromptResult : Type := {
  messages : option (list json);
  prompt_description : option string
}.

End Mcp.

(** The library [mcp] as the client uses it: the two contexts entered by
    [connect], their closing by the exit stack, and the requests of a
    [ClientSession]. *)
Class Library : Type := {
  transport : Type;
  session : Type;
  stdio_client : string → list string → option (gmap string string)
                 → outcome transport;
  client_session : transport → outcome session;
  session_initialize : session → outcome unit;
  exit_stack_aclose : list (transport + session) → outcome unit;
  session_read_resource : session → string → outcome (list Mcp.resource_contents);
  session_list_tools : session → outcome (Mcp.listing Setup.Tool);
  session_call_tool : session → json → json → outcome tool_result;
  session_list_prompts : session → outcome (Mcp.listing Mcp.Prompt);
  session_get_prompt : session → string → gmap string string
                       → outcome Mcp.GetPromptResult
}.

Module Client.
Import Mcp.

(** The attributes of an [MCPClient]. *)
Record MCPClient `{Library} : Type := {
  _command : string;
  _args : list string;
  _env : option (gmap string string);
  _session : option session;
  _exit_stack : list (transport + session)
}.

(** [MCPClient(command, args, env)] *)
Definition __init__ `{Library} (command : string) (args : list string)
    (env : option (gmap string string)) : MCPClient :=
  {| _command := command; _args := args; _env := env;
     _session := None; _exit_stack := [] |}.

(** [connect]: what the call returns or raises, and the client
    afterwards.  The session is stored before it is initialized. *)
Definition connect `{Library} (me : MCPClient) : outcome unit * MCPClient :=
  match stdio_client (_command me) (_args me) (_env me) with
  | Raise e => (Raise e, me)
  | Return stdio_transport =>
      let me :=
        {| _command := _command me; _args := _args me; _env := _env me;
           _session := _session me;
           _exit_stack := inl stdio_transport :: _exit_stack me |} in
      match client_session stdio_transport with
      | Raise e => (Raise e, me)
      | Return s =>
          let me :=
            {| _command := _command me; _args := _args me; _env := _env me;
               _session := Some s;
               _exit_stack := inr s :: _exit_stack me |} in
          (session_initialize s, me)
      end
  end.

Definition not_initialized : string :=
  "Client session not initialized. "
  +:+ "Usa 'await connect()' o el contexto 'async with MCPClient(...)'.".

(** [session()] *)
Definition session_of `{Library} (me : MCPClient) : outcome session :=
  match _session me with
  | None => Raise (ConnectionError not_initialized)
  | Some s => Return s
  end.

(** What [read_resource] returns: [None], a decoded JSON value, a text,
    or the contents themselves. *)
Inductive resource_value : Type :=
| NoContents
| Decoded (v : json)
| Text (s : string)
| Contents (r : resource_contents).

Definition read_resource `{Runtime} `{Library} (me : MCPClient) (uri : string)
    : outcome resource_value :=
  (do s <- session_of me;
   do contents <- session_read_resource s uri;
   match contents with
   | [] => Return NoContents
   | TextResourceContents text mimeType :: _ =>
       if match mimeType with
          | Some m => String.eqb m "application/json"
          | None => false
          end
       then match json_loads text with
            | Loaded v => Return (Decoded v)
            | NotJson => Raise JSONDecodeError
            | LoadRaised e => Raise (Builtin e)
            end
       else Return (Text text)
   | BlobResourceContents blob mimeType :: _ =>
       Return (Contents (BlobResourceContents blob mimeType))
   end)%exn.

(** The three shapes of a listing, lines 91-98 and 125-132. *)
Definition items_of {A : Type} (result : listing A) : list A :=
  match result with
  | AsList items => items
  | AsObject (Some items) => items
  | AsObject None => []
  end.

Definition list_tools `{Library} (me : MCPClient) : outcome (list Setup.Tool) :=
  (do s <- session_of me;
   do result <- session_list_tools s;
   Return (items_of result))%exn.

Definition call_tool `{Library} (me : MCPClient) (tool_name tool_input : json)
    : outcome tool_result :=
  (do s <- session_of me;
   do result <- session_call_tool s tool_name tool_input;
   Return result)%exn.

Definition list_prompts `{Library} (me : MCPClient) : outcome (list Prompt) :=
  (do s <- session_of me;
   do result <- session_list_prompts s;
   Return (items_of result))%exn.

(** [get_prompt]: the messages, or the result itself without them. *)
Definition get_prompt `{Library} (me : MCPClient) (prompt_name : string)
    (args : gmap string string)
    : outcome (list json + GetPromptResult) :=
  (do s <- session_of me;
   do result <- session_get_prompt s prompt_name args;
   match messages result with
   | Some messages => Return (inl messages)
   | None => Return (inr result)
   end)%exn.

(** [cleanup].  [aclose] leaves every context of the stack, last entered
    first, and the stack is empty afterwards whether one of them raised
    or not; the session is forgotten only when [aclose] returns. *)
Definition cleanup `{Library} (me : MCPClient) : outcome unit * MCPClient :=
  match exit_stack_aclose (_exit_stack me) with
  | Raise e =>
      (Raise e,
       {| _command := _command me; _args := _args me; _env := _env me;
          _session := _session me; _exit_stack := [] |})
  | Return _ =>
      (Return tt,
       {| _command := _command me; _args := _args me; _env := _env me;
          _session := None; _exit_stack := [] |})
  end.

End Client.

(** ** The command-line program: [src/main.py] *)

Module Main.

(** Lines 17-18, read when the module is loaded. *)
Definition LOCAL_LLM_MODEL (env : Os.environ) : string :=
  Os.getenv_default env "LOCAL_LLM_MODEL" EmptyString.

Definition LOCAL_LLM_BASE_URL (env : Os.environ) : string :=
  Os.getenv_default env "LOCAL_LLM_BASE_URL" "http://localhost:1234/v1".

Definition empty_model : string :=
  "Error: LOCAL_LLM_MODEL no puede estar vac" +:+ Chr.latin 237
  +:+ "o. Actualiza tu archivo .env".

(** Line 20 and lines 25-28: the assertion, then [claude_service]. *)
Definition claude_service (env : Os.environ) : outcome Gateway.self :=
  match LOCAL_LLM_MODEL env with
  | EmptyString => Raise (AssertionError empty_model)
  | String c m =>
      match Gateway.__init__ env (String c m) (Some (LOCAL_LLM_BASE_URL env)) None with
      | Ok me => Return me
      | Err e => Raise (Builtin e)
      end
  end.

(** Lines 34-38: how the document server is started. *)
Definition launch (env : Os.environ) : string * list string :=
  if String.eqb (Os.getenv_default env "USE_UV" "0") "1"
  then ("uv", ["run"; "mcp_server.py"])
  else ("python", ["mcp_server.py"]).

(** [str(i)] for a natural number *)
Definition decimal (i : nat) : string :=
  NilEmpty.string_of_uint (Nat.to_uint i).

(** [f"client_{i}_{server_script}"] *)
Definition client_id (i : nat) (server_script : string) : string :=
  "client_" +:+ decimal i +:+ "_" +:+ server_script.

(** The loop over [enumerate(server_scripts)], from the index [i] on;
    in the dict [clients] each client stands by the command and the
    arguments it was made with. *)
Fixpoint register (i : nat) (server_scripts : list string)
    (clients : gmap string (string * list string))
    : gmap string (string * list string) :=
  match server_scripts with
  | [] => clients
  | server_script :: rest =>
      register (S i) rest
        (<[client_id i server_script := ("uv", ["run"; server_script])]> clients)
  end.

(** Lines 31-53, when every server starts. *)
Definition clients (env : Os.environ) (server_scripts : list string)
    : gmap string (string * list string) :=
  register 0 server_scripts {[ "doc_client" := launch env ]}.

End Main.

(** ** Devices to state the properties of Part II *)

Module Lines.

(** [s.split("\n")] *)
Fixpoint split (s : string) : list string :=
  match s with
  | EmptyString => [EmptyString]
  | String c s' =>
      if Chr.is_nl c then EmptyString :: split s'
      else
        match split s' with
        | line :: rest => String c line :: rest
        | [] => [String c EmptyString]
        end
  end.

(** A text without line feed. *)
Definition one_line (s : string) : bool :=
  Str.all (λ c, negb (Chr.is_nl c)) s.

End Lines.

Module Rows.

(** A row of the alias table has nothing left to do on a mapping when
    its canonical name is present or none of its aliases is. *)
Definition settled (row : string * list string) (o : gmap string json)
    : Prop :=
  is_Some (o !! row.1) ∨ ∀ a, a ∈ row.2 → o !! a = None.

End Rows.

(** A session of the document server: the calls that a client makes one
    after the other, each on the store left by the previous one. *)

Module Calls.

Inductive call : Type :=
| ReadDocument (doc_id : string)
| EditDocument (doc_id old_str new_str : string)
| FetchDoc (doc_id : string)
| RewriteDocMarkdown (doc_id : string)
| SummarizeDoc (doc_id : string)
| FormatDocument (doc_id : string).

(** What the call returns or raises, and the store afterwards. *)
Definition handle (c : call) (docs : gmap string string)
    : result string * gmap string string :=
  match c with
  | ReadDocument doc_id => (Server.read_document doc_id docs, docs)
  | EditDocument doc_id old_str new_str =>
      Server.edit_document doc_id old_str new_str docs
  | FetchDoc doc_id => (Documents.fetch_doc doc_id docs, docs)
  | RewriteDocMarkdown doc_id => (Documents.rewrite_doc_markdown doc_id docs, docs)
  | SummarizeDoc doc_id => (Documents.summarize_doc doc_id docs, docs)
  | FormatDocument doc_id => (Documents.format_document doc_id docs, docs)
  end.

Fixpoint serve (calls : list call) (docs : gmap string string)
    : list (result string) * gmap string string :=
  match calls with
  | [] => ([], docs)
  | c :: rest =>
      let '(r, docs) := handle c docs in
      let '(rs, docs) := serve rest docs in
      (r :: rs, docs)
  end.

(** The edits of a session that name the document [doc_id], in order. *)
Fixpoint edits_of (doc_id : string) (calls : list call)
    : list (string * string) :=
  match calls with
  | [] => []
  | EditDocument d old_str new_str :: rest =>
      if String.eqb d doc_id then (old_str, new_str) :: edits_of doc_id rest
      else edits_of doc_id rest
  | _ :: rest => edits_of doc_id rest
  end.

(** A text after a list of replacements. *)
Definition apply_edits (text : string) (edits : list (string * string))
    : string :=
  foldl (λ t e, Str.replace t e.1 e.2) text edits.

End Calls.

(** ** More inputs to run the definitions on *)

Module Cases.

(** The two tools of the document server, as [list_tools] reports them. *)
Definition tools : list Setup.Tool :=
  [ {| Setup.name := "read_doc_contents";
       Setup.description :=
         Some "Read the contents of a document and return it as a string." |};
    {| Setup.name := "edit_document";
       Setup.description :=
         Some ("Edit a document by replacing a string in the document's content "
               +:+ "with a new string.") |} ].

(** The call that the scripted model asks for, and what the provider
    answers. *)
Definition report_args : gmap string json :=
  {[ "doc_id" := JStr "report.pdf" ]}.

Definition report_text : string :=
  "The report details the state of a 20m condenser tower.".

Definition report_result : tool_result :=
  IsCallToolResult
    {| result_content := [TextContent report_text];
       structuredContent := Some {[ "result" := JStr report_text ]};
       isError := false |}.

(** A model that answers the decision call and times out on the
    synthesis call. *)
Definition flaky_model (messages : list (string * string))
    : result LocalMessage :=
  match messages with
  | (_, system) :: _ =>
      if String.eqb system Loop.followup_system then Err (Raised "timed out")
      else Sample.model messages
  | [] => Err (Raised "no messages")
  end.

Definition flaky : Runtime := {|
  json_loads := Sample.decoder;
  py_repr := λ _, "<value>";
  repr_content := λ _, "<content>";
  repr_result := λ _, "<result>";
  claude_chat := flaky_model;
  call_tool := Sample.provider
|}.

(** An endpoint that answers every request with one choice, and a
    gateway that calls it. *)
Definition answer_text : string :=
  "[THINK]pensando[/THINK] La torre mide 20m.".

Definition answer_message : gmap string json :=
  <["role" := JStr "assistant"]> {[ "content" := JStr answer_text ]}.

Definition answer_choice : gmap string json :=
  <["index" := JInt 0]>
  (<["message" := JObj answer_message]> {[ "finish_reason" := JStr "stop" ]}).

Definition answer_body : gmap string json :=
  <["object" := JStr "chat.completion"]>
  {[ "choices" := JArr [JObj answer_choice] ]}.

Definition endpoint : Endpoint := {|
  post_json := λ _ _ _, Return (JObj answer_body)
|}.

Definition gateway : Gateway.self := {|
  Gateway.model := "local-model";
  Gateway.base_url := "http://localhost:1234/v1";
  Gateway.api_key := "not-needed"
|}.

End Cases.

Local Arguments String.append : simpl nomatch.
Set Warnings "-clear-no-such-hyp".
(* ================================================================== *)
(** * Part II: theorems *)
(* ================================================================== *)

(** ** Strings *)

Section StrFacts.
Implicit Types a b c d p r s t w : string.

Lemma append_nil_r s : s +:+ EmptyString = s.
Proof. induction s as [|x s IH]; simpl; [done | by rewrite IH]. Qed.

Lemma append_assoc a b c : (a +:+ b) +:+ c = a +:+ b +:+ c.
Proof. induction a as [|x a IH]; simpl; [done | by rewrite IH]. Qed.

Lemma length_append a b :
  String.length (a +:+ b) = String.length a + String.length b.
Proof. induction a as [|x a IH]; simpl; [done | by rewrite IH]. Qed.

Lemma append_eq_nil a b : a +:+ b = EmptyString → a = EmptyString ∧ b = EmptyString.
Proof. destruct a; simpl; [done | discriminate]. Qed.

Lemma length_zero s : String.length s = 0 → s = EmptyString.
Proof. by destruct s. Qed.

Lemma drop_prefix_app p r : Str.drop_prefix p (p +:+ r) = Some r.
Proof.
  induction p as [|x p IH]; simpl; [by destruct r |].
  by rewrite Ascii.eqb_refl.
Qed.

Lemma drop_prefix_Some p s r : Str.drop_prefix p s = Some r → s = p +:+ r.
Proof.
  revert s. induction p as [|x p IH]; intros s H; simpl in *.
  - destruct s; by injection H as <-.
  - destruct s as [|y s]; [done |].
    destruct (Ascii.eqb_spec x y) as [-> |]; [| done].
    by rewrite (IH _ H).
Qed.

Lemma startswith_true s p :
  Str.startswith s p = true ↔ ∃ r, s = p +:+ r.
Proof.
  unfold Str.startswith. split.
  - destruct (Str.drop_prefix p s) eqn:E; [| done].
    intros _. eexists. by apply drop_prefix_Some.
  - intros [r ->]. by rewrite drop_prefix_app.
Qed.

Lemma take_app w r :
  Str.take (String.length (w +:+ r) - String.length r) (w +:+ r) = w.
Proof.
  rewrite length_append. replace (_ + _ - _) with (String.length w) by lia.
  induction w as [|x w IH]; simpl; [by destruct r | by rewrite IH].
Qed.

Lemma all_app f a b :
  Str.all f (a +:+ b) = Str.all f a && Str.all f b.
Proof.
  induction a as [|x a IH]; simpl; [done |]. rewrite IH. by destruct (f x).
Qed.

Lemma all_any s : Str.all Re.any s = true.
Proof. by induction s. Qed.

End StrFacts.


(** ** The matcher against the language of a pattern *)

Section ReFacts.
Context {A : Type}.

Lemma star_greedy_sound cls s (k : string → option A) x :
  Re.star_greedy cls s k = Some x →
  ∃ w s', s = w +:+ s' ∧ Str.all cls w = true ∧ k s' = Some x.
Proof.
  induction s as [|c s IH]; simpl; intros H.
  - by exists EmptyString, EmptyString.
  - destruct (cls c) eqn:Hc.
    + destruct (Re.star_greedy cls s k) eqn:E.
      * injection H as ->. destruct (IH eq_refl) as (w & s' & -> & Hw & Hk).
        exists (String c w), s'. simpl. by rewrite Hc.
      * by exists EmptyString, (String c s).
    + by exists EmptyString, (String c s).
Qed.

Lemma star_lazy_sound cls s (k : string → option A) x :
  Re.star_lazy cls s k = Some x →
  ∃ w s', s = w +:+ s' ∧ Str.all cls w = true ∧ k s' = Some x.
Proof.
  induction s as [|c s IH]; simpl; intros H.
  - destruct (k EmptyString) eqn:E; [| done].
    injection H as ->. by exists EmptyString, EmptyString.
  - destruct (k (String c s)) eqn:E.
    + injection H as ->. by exists EmptyString, (String c s).
    + destruct (cls c) eqn:Hc; [| done].
      destruct (IH H) as (w & s' & -> & Hw & Hk).
      exists (String c w), s'. simpl. by rewrite Hc.
Qed.

Lemma star_greedy_complete cls w s' (k : string → option A) :
  Str.all cls w = true → is_Some (k s') →
  is_Some (Re.star_greedy cls (w +:+ s') k).
Proof.
  intros Hw Hk. induction w as [|c w IH]; simpl in *.
  - destruct s' as [|c s]; simpl; [done |].
    destruct (cls c); [| done]. by destruct (Re.star_greedy cls s k).
  - apply andb_true_iff in Hw as [-> Hw].
    destruct (IH Hw) as [x ->]. by eexists.
Qed.

Lemma star_lazy_complete cls w s' (k : string → option A) :
  Str.all cls w = true → is_Some (k s') →
  is_Some (Re.star_lazy cls (w +:+ s') k).
Proof.
  intros Hw Hk. induction w as [|c w IH]; simpl in *.
  - destruct Hk as [x Hk]. destruct s'; simpl; rewrite Hk; by eexists.
  - apply andb_true_iff in Hw as [-> Hw].
    destruct (k (String c (w +:+ s'))); [by eexists | by apply IH].
Qed.

(** Every result of the matcher comes from a word of the language. *)
Lemma run_sound r :
  ∀ s g (k : string → option string → option A) x,
    Re.run r s g k = Some x →
    ∃ w s' o,
      s = w +:+ s' ∧ Spec.Matches r w o
      ∧ k s' (match o with Some _ => o | None => g end) = Some x.
Proof.
  induction r as [p | greedy cls | r IH | r1 IH1 r2 IH2];
    intros s g k x H; simpl in H.
  - destruct (Str.drop_prefix p s) as [s'|] eqn:E; [| done].
    exists p, s', None. split; [by apply drop_prefix_Some |].
    split; [constructor | done].
  - assert (∃ w s', s = w +:+ s' ∧ Str.all cls w = true ∧ k s' g = Some x)
      as (w & s' & -> & Hw & Hk).
    { destruct greedy;
        [by apply star_greedy_sound in H | by apply star_lazy_sound in H]. }
    exists w, s', None. split; [done |]. split; [by constructor | done].
  - destruct (IH _ _ _ _ H) as (w & s' & o & -> & Hm & Hk).
    rewrite take_app in Hk.
    exists w, s', (Some w). split; [done |].
    split; [by econstructor | done].
  - destruct (IH1 _ _ _ _ H) as (w1 & s1 & o1 & -> & Hm1 & H1).
    destruct (IH2 _ _ _ _ H1) as (w2 & s2 & o2 & -> & Hm2 & H2).
    exists (w1 +:+ w2), s2, (match o2 with Some _ => o2 | None => o1 end).
    split; [by rewrite append_assoc |]. split; [by constructor |].
    by destruct o2, o1.
Qed.

(** The matcher finds a result whenever a word of the language is a
    prefix and the continuation accepts what follows it. *)
Lemma run_complete r w o :
  Spec.Matches r w o →
  ∀ s' g (k : string → option string → option A),
    (∀ g', is_Some (k s' g')) → is_Some (Re.run r (w +:+ s') g k).
Proof.
  induction 1 as [p | greedy cls w Hw | r w o _ IH
                  | r1 r2 w1 w2 o1 o2 _ IH1 _ IH2];
    intros s' g k Hk; simpl.
  - by rewrite drop_prefix_app.
  - destruct greedy;
      [by apply star_greedy_complete | by apply star_lazy_complete].
  - apply IH. intros g'. apply Hk.
  - rewrite append_assoc. apply IH1. intros g'. by apply IH2.
Qed.

End ReFacts.

Lemma match_here_sound r s m :
  Re.match_here r s = Some m →
  ∃ w, s = w +:+ Re.after m ∧ Spec.Matches r w (Re.group1 m)
       ∧ Re.before m = EmptyString.
Proof.
  intros H. apply run_sound in H as (w & s' & o & -> & Hm & H).
  injection H as <-. exists w. simpl. by destruct o.
Qed.

Lemma match_here_complete r w o s' :
  Spec.Matches r w o → is_Some (Re.match_here r (w +:+ s')).
Proof. intros Hm. eapply run_complete; [done |]. intros g'. by eexists. Qed.


(** ... and finds one wherever the text has one. *)
Lemma search_complete r pre w o post :
  Spec.Matches r w o → is_Some (Re.search r (pre +:+ w +:+ post)).
Proof.
  intros Hm. induction pre as [|c pre IH]; simpl.
  - destruct (match_here_complete r w o post Hm) as [m E].
    destruct (w +:+ post); simpl; rewrite E; by eexists.
  - destruct (Re.match_here r _); [by eexists |].
    destruct IH as [m ->]. by eexists.
Qed.

Lemma search_None r s :
  Re.search r s = None →
  ∀ pre w o post, s = pre +:+ w +:+ post → ¬ Spec.Matches r w o.
Proof.
  intros H pre w o post -> Hm.
  destruct (search_complete r pre w o post Hm) as [m E]. congruence.
Qed.

(** ** White space at both ends *)



(** ** The two fence patterns *)


Lemma Matches_seq r1 r2 w1 w2 o1 o2 o :
  Spec.Matches r1 w1 o1 → Spec.Matches r2 w2 o2 →
  o = match o2 with Some _ => o2 | None => o1 end →
  Spec.Matches (Re.Seq r1 r2) (w1 +:+ w2) o.
Proof. intros H1 H2 ->. by constructor. Qed.




(** ** [strip] removes the white space around a text, and nothing else *)

Lemma lstrip_split s :
  ∃ ws, s = ws +:+ Str.lstrip s ∧ Str.all Str.isspace ws = true.
Proof.
  induction s as [|c s (ws & IH & Hws)]; simpl.
  - by exists EmptyString.
  - destruct (Str.isspace c) eqn:Hc.
    + exists (String c ws). simpl. by rewrite Hc, <- IH.
    + by exists EmptyString.
Qed.

Lemma lstrip_head s c r : Str.lstrip s = String c r → Str.isspace c = false.
Proof.
  induction s as [|x s IH]; simpl; [done |].
  destruct (Str.isspace x) eqn:Hx; [done |]. by intros [= <- _].
Qed.

Lemma rstrip_split s :
  ∃ ws, s = Str.rstrip s +:+ ws ∧ Str.all Str.isspace ws = true.
Proof.
  induction s as [|c s (ws & IH & Hws)]; simpl.
  - by exists EmptyString.
  - destruct (Str.rstrip s) as [|y r] eqn:E.
    + destruct (Str.isspace c) eqn:Hc.
      * exists (String c ws). simpl in *. subst s. by rewrite Hc.
      * exists ws. simpl in *. by subst s.
    + exists ws. simpl in *. by rewrite <- IH.
Qed.

Lemma rstrip_last s r c :
  Str.rstrip s = r +:+ String c EmptyString → Str.isspace c = false.
Proof.
  revert r. induction s as [|x s IH]; intros r; simpl.
  - by destruct r.
  - destruct (Str.rstrip s) as [|y t] eqn:E.
    + destruct (Str.isspace x) eqn:Hx; [by destruct r |].
      destruct r as [|z r]; simpl; [by intros [= <-] |].
      intros [= _ H]. by destruct r.
    + destruct r as [|z r]; simpl; [done |].
      intros [= _ H]. by apply (IH r).
Qed.

Lemma rstrip_head s c r :
  Str.rstrip s = String c r → ∃ r', s = String c r'.
Proof.
  intros H. destruct (rstrip_split s) as (ws & Hs & _).
  rewrite H in Hs. simpl in Hs. by eexists.
Qed.

Lemma strip_trimmed s : Spec.trimmed s (Str.strip s).
Proof.
  unfold Str.strip. split; [| split].
  - destruct (lstrip_split s) as (ws1 & H1 & Hw1).
    destruct (rstrip_split (Str.lstrip s)) as (ws2 & H2 & Hw2).
    exists ws1, ws2. split; [| done]. by rewrite <- H2.
  - intros c r H. apply rstrip_head in H as [r' H].
    by apply lstrip_head in H.
  - intros r c H. by apply rstrip_last in H.
Qed.

Lemma lstrip_app_nonspace a c b :
  Str.isspace c = false →
  Str.lstrip (a +:+ String c b) = Str.lstrip a +:+ String c b.
Proof.
  intros Hc. induction a as [|x a IH]; simpl; [by rewrite Hc |].
  by destruct (Str.isspace x).
Qed.

Lemma rstrip_app_nonspace a c b :
  Str.isspace c = false →
  Str.rstrip (a +:+ String c b) = a +:+ String c (Str.rstrip b).
Proof.
  intros Hc. induction a as [|x a IH]; simpl.
  - destruct (Str.rstrip b); [by rewrite Hc | done].
  - rewrite IH. by destruct a.
Qed.

(** A text between two characters that are not white space survives
    [strip], which only shortens what is around it. *)
Lemma strip_around pre c core d post :
  Str.isspace c = false → Str.isspace d = false →
  Str.strip (pre +:+ String c (core +:+ String d post))
  = Str.lstrip pre +:+ String c (core +:+ String d (Str.rstrip post)).
Proof.
  intros Hc Hd. unfold Str.strip. rewrite lstrip_app_nonspace by done.
  change (String c (core +:+ String d post))
    with (String c core +:+ String d post).
  rewrite <- append_assoc, rstrip_app_nonspace by done.
  by rewrite append_assoc.
Qed.

(** ** Extraction of the JSON candidate *)




(** ** Leftmost matches and substitution *)

(** [search] stops at the first position where the pattern matches. *)
Lemma search_first r s m :
  Re.search r s = Some m →
  ∃ rest m',
    s = Re.before m +:+ rest
    ∧ Re.match_here r rest = Some m'
    ∧ Re.after m' = Re.after m
    ∧ ∀ pre' rest', s = pre' +:+ rest' →
        String.length pre' < String.length (Re.before m) →
        Re.match_here r rest' = None.
Proof.
  revert m. induction s as [|c s IH]; intros m; simpl.
  - destruct (Re.match_here r EmptyString) as [m'|] eqn:E; [| done].
    intros [= <-]. exists EmptyString, m'.
    destruct (match_here_sound _ _ _ E) as (w & Hs & _ & Hb).
    rewrite Hb. repeat split; try done. simpl. intros; lia.
  - destruct (Re.match_here r (String c s)) as [m'|] eqn:E.
    + intros [= <-]. exists (String c s), m'.
      destruct (match_here_sound _ _ _ E) as (w & Hs & _ & Hb).
      rewrite Hb. repeat split; try done. simpl. intros; lia.
    + destruct (Re.search r s) as [m1|] eqn:E1; [| done].
      intros [= <-]. destruct (IH _ eq_refl) as (rest & m' & Hs & Hm & Ha & Hfirst).
      exists rest, m'. simpl. repeat split; try done; [by rewrite <- Hs |].
      intros [|x pre'] rest' Hcut Hlen; simpl in *.
      * by subst rest'.
      * injection Hcut as <- Hcut. apply (Hfirst pre'); [done | lia].
Qed.

Lemma sub_scan_skip r repl w t :
  Re.sub_scan r repl (w +:+ t) (String.length w) = Re.sub_scan r repl t 0.
Proof. induction w as [|c w IH]; simpl; [by destruct t | done]. Qed.

(** One step of [re.sub] for a pattern without empty match: the text up to
    the leftmost match, the replacement, and the same again on what follows. *)
Lemma sub_unfold r repl s :
  (∀ t m, Re.match_here r t = Some m →
          String.length (Re.after m) < String.length t) →
  Re.sub r repl s =
  match Re.search r s with
  | Some m => Re.before m +:+ repl +:+ Re.sub r repl (Re.after m)
  | None => s
  end.
Proof.
  intros Hne. unfold Re.sub. induction s as [|c s IH]; simpl.
  - destruct (Re.match_here r EmptyString) as [m|] eqn:E; [| done].
    apply Hne in E. simpl in E. lia.
  - destruct (Re.match_here r (String c s)) as [m|] eqn:E.
    + pose proof (Hne _ _ E) as Hlen.
      destruct (match_here_sound _ _ _ E) as (w & Hs & _ & ->).
      simpl. f_equal.
      destruct w as [|x w]; simpl in Hs.
      { rewrite <- Hs in Hlen. lia. }
      injection Hs as <- ->. rewrite length_append.
      replace (_ - _ - _) with (String.length w) by (simpl; lia).
      apply sub_scan_skip.
    + rewrite IH. by destruct (Re.search r s).
Qed.

(** ** Reasoning blocks *)

Lemma star_lazy_first {A} cls s (k : string → option A) x :
  Re.star_lazy cls s k = Some x →
  ∃ w s', s = w +:+ s' ∧ k s' = Some x
          ∧ ∀ w1 s1, s = w1 +:+ s1 →
              String.length w1 < String.length w → k s1 = None.
Proof.
  induction s as [|c s IH]; simpl.
  - destruct (k EmptyString) eqn:E; [| done]. intros [= ->].
    exists EmptyString, EmptyString. repeat split; try done.
    simpl. intros; lia.
  - destruct (k (String c s)) eqn:E.
    + intros [= ->]. exists EmptyString, (String c s).
      repeat split; try done. simpl. intros; lia.
    + destruct (cls c); [| done]. intros H.
      destruct (IH H) as (w & s' & -> & Hk & Hfirst).
      exists (String c w), s'. repeat split; try done.
      intros [|y w1] s1 Hcut Hlen; simpl in *.
      * by subst s1.
      * injection Hcut as <- Hcut. apply (Hfirst w1); [done | lia].
Qed.

Lemma think_here_Some s m :
  Re.match_here Claude.think_block s = Some m →
  ∃ inner,
    s = "[THINK]" +:+ inner +:+ "[/THINK]" +:+ Re.after m
    ∧ Spec.leftmost "[/THINK]" inner.
Proof.
  unfold Re.match_here, Claude.think_block. cbn [Re.run].
  destruct (Str.drop_prefix "[THINK]" s) as [s1|] eqn:E1; [| done].
  apply drop_prefix_Some in E1 as ->. intros H.
  apply star_lazy_first in H as (inner & s2 & -> & H & Hfirst).
  destruct (Str.drop_prefix "[/THINK]" s2) as [s3|] eqn:E2; [| done].
  apply drop_prefix_Some in E2 as ->. injection H as <-. simpl Re.after.
  exists inner. split; [done |].
  intros pre' post' Hcut.
  destruct post' as [|c post']; [done | exfalso].
  assert (String.length pre' < String.length inner) as Hlen.
  { apply (f_equal String.length) in Hcut.
    rewrite !length_append in Hcut. simpl in Hcut. lia. }
  specialize (Hfirst pre' ("[/THINK]" +:+ String c post' +:+ s3)).
  rewrite drop_prefix_app in Hfirst.
  assert (Some {| Re.before := EmptyString; Re.group1 := None;
                  Re.after := String c post' +:+ s3 |} = None) as Habs; [| done].
  apply Hfirst; [| done].
  rewrite <- !append_assoc, Hcut. by rewrite !append_assoc.
Qed.

Lemma think_matches inner :
  Spec.Matches Claude.think_block ("[THINK]" +:+ inner +:+ "[/THINK]") None.
Proof.
  eapply (Matches_seq _ _ _ _ None None); [apply Spec.M_lit | | reflexivity].
  eapply (Matches_seq _ _ _ _ None None);
    [apply Spec.M_star, all_any | apply Spec.M_lit | reflexivity].
Qed.

Lemma think_here_None s :
  Re.match_here Claude.think_block s = None →
  ∀ inner post, s ≠ "[THINK]" +:+ inner +:+ "[/THINK]" +:+ post.
Proof.
  intros H inner post ->.
  destruct (match_here_complete _ _ _ post (think_matches inner)) as [m E].
  rewrite !append_assoc in E. simpl in *. congruence.
Qed.

Lemma think_not_empty t m :
  Re.match_here Claude.think_block t = Some m →
  String.length (Re.after m) < String.length t.
Proof.
  intros H. apply think_here_Some in H as (inner & -> & _).
  rewrite !length_append. simpl. lia.
Qed.

(** [re.sub] with the pattern of reasoning blocks removes the blocks, paired
    from the left, and keeps the rest. *)
(** [re.sub] with the pattern of reasoning blocks removes the blocks, paired
    from the left, and keeps the rest. *)
Lemma sub_think_unthought s :
  Spec.unthought s (Re.sub Claude.think_block EmptyString s).
Proof.
  remember (String.length s) as n eqn:Hn.
  revert s Hn. induction n as [n IH] using lt_wf_ind. intros s ->.
  rewrite (sub_unfold _ _ _ think_not_empty).
  destruct (Re.search Claude.think_block s) as [m|] eqn:E.
  - apply search_first in E as (rest & m' & Hs & Hm & Ha & Hfirst).
    pose proof (think_here_Some _ _ Hm) as (inner & Hrest & Hnear).
    rewrite Ha in Hrest. subst rest. subst s. clear Hm Ha.
    change (Re.before m +:+ EmptyString +:+ ?x) with (Re.before m +:+ x).
    apply Spec.un_block; [| done |].
    + intros pre' post' Hcut.
      destruct post' as [|c post']; [done | exfalso].
      assert (Re.match_here Claude.think_block
                ("[THINK]" +:+ (String c post' +:+ inner) +:+ "[/THINK]"
                 +:+ Re.after m) = None) as Hnone.
      { apply (Hfirst pre').
        - transitivity ((Re.before m +:+ "[THINK]") +:+ inner +:+ "[/THINK]"
                        +:+ Re.after m); [by rewrite !append_assoc |].
          rewrite Hcut. by rewrite !append_assoc.
        - apply (f_equal String.length) in Hcut.
          rewrite !length_append in Hcut.
          change (String.length (String c post')) with (S (String.length post')) in Hcut.
          lia. }
      by apply (think_here_None _ Hnone (String c post' +:+ inner) (Re.after m)).
    + apply (IH (String.length (Re.after m))); [| done].
      rewrite !length_append. change (String.length "[THINK]") with 7. lia.
  - apply Spec.un_done. intros (pre & inner & post & Hs).
    apply (search_None _ _ E pre ("[THINK]" +:+ inner +:+ "[/THINK]") None post);
      [| apply think_matches].
    rewrite Hs. rewrite !append_assoc. reflexivity.
Qed.

(** ** The block that a fence pattern picks *)











(** C9. The text of a gateway message is the reply without its reasoning
    blocks (each opening marker paired with the nearest closing marker,
    blocks taken from the left, all of them removed, the text around them
    kept), and then without the white space around it. *)
Theorem text_from_message_unthought `{Runtime} (text stop : string) :
  let message :=
    {| content := JArr [JObj (<["type" := JStr "text"]> {[ "text" := JStr text ]})];
       stop_reason := stop |} in
  Claude.raw_text message = text
  ∧ Claude.text_from_message message = Claude.strip_thinking text
  ∧ ∃ cleaned,
      Spec.unthought text cleaned
      ∧ Spec.trimmed cleaned (Claude.strip_thinking text).
Proof.
  assert (Claude.raw_text
            {| content := JArr [JObj (<["type" := JStr "text"]> {[ "text" := JStr text ]})];
               stop_reason := stop |} = text) as Hraw.
  { unfold Claude.raw_text. simpl.
    rewrite lookup_insert_ne by done. by rewrite lookup_singleton_eq. }
  split; [done |]. split.
  - unfold Claude.text_from_message. by rewrite Hraw.
  - exists (Re.sub Claude.think_block EmptyString text).
    split; [apply sub_think_unthought | apply strip_trimmed].
Qed.

(** ** [str.replace] *)

Lemma replace_scan_skip old new w t :
  Str.replace_scan old new (w +:+ t) (String.length w)
  = Str.replace_scan old new t 0.
Proof. induction w as [|c w IH]; simpl; [by destruct t | done]. Qed.

Lemma occurs_cons old c s :
  Spec.occurs old (String c s) →
  Str.startswith (String c s) old = true ∨ Spec.occurs old s.
Proof.
  intros ([|x pre] & post & H).
  - left. apply startswith_true. by exists post.
  - right. simpl in H. injection H as _ ->. by exists pre, post.
Qed.

Lemma leftmost_nil old : Spec.leftmost old EmptyString.
Proof.
  intros pre' post' H. apply (f_equal String.length) in H.
  rewrite !length_append in H. simpl in H.
  apply length_zero. lia.
Qed.

Lemma leftmost_cons old c pre post :
  Str.startswith (String c (pre +:+ old +:+ post)) old = false →
  Spec.leftmost old pre → Spec.leftmost old (String c pre).
Proof.
  intros Hno Hleft [|x pre'] post' H.
  - exfalso. assert (Str.startswith (String c (pre +:+ old +:+ post)) old = true);
      [| congruence].
    apply startswith_true. exists (post' +:+ post).
    change (String c (pre +:+ old +:+ post)) with (String c pre +:+ old +:+ post).
    rewrite <- append_assoc, H. simpl. by rewrite !append_assoc.
  - simpl in H. injection H as _ H. by apply (Hleft pre').
Qed.

Lemma replaced_cons old new c s t :
  Str.startswith (String c s) old = false →
  Spec.replaced old new s t →
  Spec.replaced old new (String c s) (String c t).
Proof.
  intros Hno Hr. destruct Hr as [s Hnone | pre post out Hleft Hr].
  - apply Spec.rep_none. intros Hocc.
    apply occurs_cons in Hocc as [Hs | Hocc]; [congruence | done].
  - apply (Spec.rep_next old new (String c pre) post out); [| done].
    by eapply leftmost_cons.
Qed.

(** Replacing a non-empty [old]: every occurrence met from the left. *)
Lemma replace_scan_replaced old new s :
  old ≠ EmptyString →
  Spec.replaced old new s (Str.replace_scan old new s 0).
Proof.
  intros Hold. remember (String.length s) as n eqn:Hn.
  revert s Hn. induction n as [n IH] using lt_wf_ind. intros s ->.
  destruct s as [|c s].
  - apply Spec.rep_none. intros (pre & post & H).
    symmetry in H. apply append_eq_nil in H as [_ H].
    apply append_eq_nil in H as [H _]. done.
  - cbn [Str.replace_scan].
    destruct (Str.startswith (String c s) old) eqn:E.
    + apply startswith_true in E as [rest E].
      destruct old as [|x old]; [done |].
      simpl in E. injection E as <- ->.
      replace (String.length (String c old) - 1) with (String.length old)
        by (simpl; lia).
      rewrite replace_scan_skip.
      apply (Spec.rep_next (String c old) new EmptyString rest);
        [apply leftmost_nil |].
      apply (IH (String.length rest)); [| done].
      simpl. rewrite length_append. lia.
    + apply replaced_cons; [done |].
      apply (IH (String.length s)); [simpl; lia | done].
Qed.

Lemma replaced_absent old new s t :
  Spec.replaced old new s t → ¬ Spec.occurs old s → t = s.
Proof.
  intros [s' _ | pre post out _ _] Hno; [done |].
  exfalso. apply Hno. by exists pre, post.
Qed.

Lemma occurs_nil s : Spec.occurs EmptyString s.
Proof. by exists EmptyString, s. Qed.

Lemma length_interleave (new s : string) :
  String.length (Str.interleave new s)
  = String.length s + (String.length s + 1) * String.length new.
Proof.
  induction s as [|c s IH]; cbn [Str.interleave String.length].
  - lia.
  - rewrite length_append. cbn [String.length]. rewrite IH. lia.
Qed.

Lemma interleave_spread (new s : string) :
  Spec.spread new s (Str.interleave new s).
Proof. induction s as [|c s IH]; simpl; by constructor. Qed.

Lemma spread_unique (new s out out' : string) :
  Spec.spread new s out → Spec.spread new s out' → out = out'.
Proof.
  intros H. revert out'. induction H as [|c s out _ IH]; intros out' H'.
  - by inversion H'.
  - inversion H' as [|c' s' o' Ho']; subst. by rewrite (IH _ Ho').
Qed.

(** C10. [edit_document] on a document of the store keeps the set of
    document ids and every other document, and stores the text with every
    occurrence of [old_str] replaced by [new_str] (the same text when
    [old_str] does not occur); with an empty [old_str] the text stored is
    the old one with [new_str] before each of its characters and after the
    last one, and no other text.  On an unknown id it raises and leaves the
    store as it was. *)
Theorem edit_document_frame (doc_id old_str new_str : string)
    (docs : gmap string string) :
  match docs !! doc_id with
  | Some text =>
      ∃ edited,
        Server.edit_document doc_id old_str new_str docs
        = (Ok edited, <[doc_id := edited]> docs)
        ∧ dom (<[doc_id := edited]> docs) = dom docs
        ∧ (∀ other, other ≠ doc_id →
             <[doc_id := edited]> docs !! other = docs !! other)
        ∧ <[doc_id := edited]> docs !! doc_id = Some edited
        ∧ edited = Str.replace text old_str new_str
        ∧ match old_str with
          | EmptyString =>
              Spec.spread new_str text edited
              ∧ (∀ out, Spec.spread new_str text out → out = edited)
              ∧ String.length edited
                = String.length text
                  + (String.length text + 1) * String.length new_str
          | String _ _ => Spec.replaced old_str new_str text edited
          end
        ∧ (¬ Spec.occurs old_str text → edited = text)
  | None =>
      Server.edit_document doc_id old_str new_str docs
      = (Err (Server.not_found doc_id), docs)
  end.
Proof.
  unfold Server.edit_document.
  destruct (docs !! doc_id) as [text|] eqn:E; [| done].
  exists (Str.replace text old_str new_str).
  split; [done |]. split.
  { apply set_eq. intros k. rewrite dom_insert, elem_of_union, elem_of_singleton.
    split; [intros [-> | ?]; [by apply elem_of_dom | done] | by right]. }
  split; [intros other Hne; by rewrite lookup_insert_ne |].
  split; [by rewrite lookup_insert_eq |].
  split; [done |].
  destruct old_str as [|c old]; cbn [Str.replace].
  - split.
    + split; [apply interleave_spread |].
      split; [| apply length_interleave].
      intros out Hout. apply (spread_unique _ _ _ _ Hout), interleave_spread.
    + intros Hno. exfalso. apply Hno, occurs_nil.
  - pose proof (replace_scan_replaced (String c old) new_str text) as Hr.
    split; [by apply Hr |].
    intros Hno. eapply replaced_absent; [by apply Hr | done].
Qed.

(** ** Argument normalization *)

Lemma normalize_old_dict (o : gmap string json) :
  Agent.normalize_old (JObj o)
  = Ok (JObj (Spec.apply_row ("old_str", ["old_string"; "old"]) o)).
Proof.
  unfold Agent.normalize_old, Agent.rename, Spec.apply_row. simpl.
  destruct (o !! "old_str") eqn:E0; simpl; [done |].
  destruct (o !! "old_string") eqn:E1; simpl; [done |].
  destruct (o !! "old") eqn:E2; simpl; done.
Qed.

Lemma normalize_new_dict (o : gmap string json) :
  Agent.normalize_new (JObj o)
  = Ok (JObj (Spec.apply_row ("new_str", ["new_string"; "new_striing"; "new"]) o)).
Proof.
  unfold Agent.normalize_new, Agent.rename, Spec.apply_row. simpl.
  destruct (o !! "new_str") eqn:E0; simpl; [done |].
  destruct (o !! "new_string") eqn:E1; simpl; [done |].
  destruct (o !! "new_striing") eqn:E2; simpl; [done |].
  destruct (o !! "new") eqn:E3; simpl; done.
Qed.

(** On a mapping, the branches of the source compute what the alias table
    prescribes, and never raise. *)
Lemma normalize_dict (o : gmap string json) :
  Agent.normalize (JStr "edit_document") (JObj o) = Ok (JObj (Spec.normalized o)).
Proof.
  unfold Agent.normalize. simpl.
  rewrite normalize_old_dict. simpl. by rewrite normalize_new_dict.
Qed.

Lemma normalize_other_tool (tool_name arguments : json) :
  Py.is_str "edit_document" tool_name = false →
  Agent.normalize tool_name arguments = Ok arguments.
Proof. unfold Agent.normalize. by intros ->. Qed.

(** ** The alias table, row by row *)

Lemma first_present_Some aliases (o : gmap string json) a v :
  Spec.first_present aliases o = Some (a, v) → a ∈ aliases ∧ o !! a = Some v.
Proof.
  induction aliases as [|x aliases IH]; simpl; [done |].
  destruct (o !! x) eqn:E.
  - intros [= <- <-]. split; [by left | done].
  - intros H. destruct (IH H). split; [by right | done].
Qed.

Lemma first_present_ext aliases (o1 o2 : gmap string json) :
  (∀ a, a ∈ aliases → o1 !! a = o2 !! a) →
  Spec.first_present aliases o1 = Spec.first_present aliases o2.
Proof.
  induction aliases as [|x aliases IH]; simpl; intros H; [done |].
  rewrite (H x) by by left. destruct (o2 !! x); [done |].
  apply IH. intros a Ha. apply H. by right.
Qed.

(** A row touches its own names only. *)
Lemma apply_row_other row (o : gmap string json) k :
  k ≠ row.1 → k ∉ row.2 → Spec.apply_row row o !! k = o !! k.
Proof.
  intros Hc Ha. unfold Spec.apply_row.
  destruct (o !! row.1); [done |].
  destruct (Spec.first_present row.2 o) as [[a v]|] eqn:E; [| done].
  apply first_present_Some in E as [Hin _].
  rewrite lookup_insert_ne by done.
  apply lookup_delete_ne. by intros ->.
Qed.

(** A row renames the first alias present when the canonical name is absent. *)
Lemma apply_row_rename row (o : gmap string json) a v :
  a ≠ row.1 → o !! row.1 = None →
  Spec.first_present row.2 o = Some (a, v) →
  Spec.apply_row row o !! row.1 = Some v ∧ Spec.apply_row row o !! a = None.
Proof.
  intros Hne Hc Hf. unfold Spec.apply_row. rewrite Hc, Hf. split.
  - apply lookup_insert_eq.
  - rewrite lookup_insert_ne by done. apply lookup_delete_eq.
Qed.

(** What a row leaves under a name was supplied under that name, or under
    an alias of it. *)
Lemma apply_row_supplied row (o : gmap string json) k v :
  Spec.apply_row row o !! k = Some v →
  o !! k = Some v ∨ (k = row.1 ∧ ∃ a, a ∈ row.2 ∧ o !! a = Some v).
Proof.
  unfold Spec.apply_row.
  destruct (o !! row.1) eqn:Hc; [by left |].
  destruct (Spec.first_present row.2 o) as [[a w]|] eqn:E; [| by left].
  apply first_present_Some in E as [Hin Ha].
  destruct (decide (k = row.1)) as [-> | Hne].
  - rewrite lookup_insert_eq. intros [= <-]. right. eauto.
  - rewrite lookup_insert_ne by done. intros H. left.
    destruct (decide (k = a)) as [-> | Hka].
    + by rewrite lookup_delete_eq in H.
    + by rewrite lookup_delete_ne in H.
Qed.

Lemma apply_row_no_alias row (o : gmap string json) :
  (∀ a, a ∈ row.2 → o !! a = None) → Spec.apply_row row o = o.
Proof.
  intros H. unfold Spec.apply_row. destruct (o !! row.1); [done |].
  destruct (Spec.first_present row.2 o) as [[a v]|] eqn:E; [| done].
  apply first_present_Some in E as [Hin Ha]. rewrite (H a Hin) in Ha. done.
Qed.

Lemma normalized_rows (o : gmap string json) :
  Spec.normalized o
  = Spec.apply_row ("new_str", ["new_string"; "new_striing"; "new"])
      (Spec.apply_row ("old_str", ["old_string"; "old"]) o).
Proof. reflexivity. Qed.

Lemma is_alias_true k :
  Spec.is_alias k = true →
  k ∈ ["old_string"; "old"; "new_string"; "new_striing"; "new"].
Proof.
  unfold Spec.is_alias. simpl. intros H.
  repeat (apply orb_prop in H as [H | H]); try discriminate;
    apply String.eqb_eq in H as ->; set_solver.
Qed.

(** An alias stays exactly when the canonical name or an alias of higher
    priority was supplied with it. *)
Lemma alias_stays (o : gmap string json) (k : string) :
  k ∈ ["old_string"; "old"; "new_string"; "new_striing"; "new"] →
  is_Some (Spec.normalized o !! k)
  ↔ is_Some (o !! k) ∧ Spec.shadowed k o = true.
Proof.
  intros Hk. rewrite normalized_rows.
  set (o1 := Spec.apply_row ("old_str", ["old_string"; "old"]) o).
  assert (∀ a, a ∈ ["new_str"; "new_string"; "new_striing"; "new"] →
               o1 !! a = o !! a) as Hnew.
  { intros a Ha. apply apply_row_other; simpl; set_solver. }
  repeat (apply elem_of_cons in Hk as [-> | Hk]);
    [.. | by apply elem_of_nil in Hk].
  1, 2: rewrite apply_row_other by (simpl; set_solver);
    subst o1; unfold Spec.apply_row, Spec.shadowed; simpl;
    destruct (o !! "old_str") eqn:?, (o !! "old_string") eqn:?,
      (o !! "old") eqn:?; simpl; simplify_map_eq;
    (split; [intros [? ?] | intros [[? ?] ?]]); simplify_eq; eauto.
  all: unfold Spec.apply_row at 1, Spec.shadowed; simpl;
    rewrite !Hnew by set_solver;
    destruct (o !! "new_str") eqn:?, (o !! "new_string") eqn:?,
      (o !! "new_striing") eqn:?, (o !! "new") eqn:?; simpl;
    rewrite ?Hnew by set_solver; simplify_map_eq;
    rewrite ?Hnew by set_solver;
    (split; [intros [? ?] | intros [[? ?] ?]]); simplify_eq; eauto.
Qed.

(** C1, as the code has it. For the document-editing tool, normalization of
    a mapping never raises, and an alias key remains afterwards exactly when
    it was supplied together with its canonical key or with an alias of
    higher priority for the same canonical key; every other alias key is
    gone. *)
Theorem alias_remains_iff_shadowed (o : gmap string json) (k : string) :
  Agent.normalize (JStr "edit_document") (JObj o) = Ok (JObj (Spec.normalized o))
  ∧ (Spec.is_alias k = true →
     (is_Some (Spec.normalized o !! k)
      ↔ is_Some (o !! k) ∧ Spec.shadowed k o = true)).
Proof.
  split; [apply normalize_dict |].
  intros Hk. by apply alias_stays, is_alias_true.
Qed.

Lemma alias_remains_iff_shadowed_witness :
  Agent.normalize (JStr "edit_document") (JObj Sample.args_alias_new)
  = Ok (JObj (Spec.normalized Sample.args_alias_new))
  ∧ (is_Some (Spec.normalized Sample.args_alias_new !! "new")
     ↔ is_Some (Sample.args_alias_new !! "new")
       ∧ Spec.shadowed "new" Sample.args_alias_new = true).
Proof.
  destruct (alias_remains_iff_shadowed Sample.args_alias_new "new") as [H1 H2].
  split; [exact H1 | apply H2; reflexivity].
Defined.

(** An alias supplied next to its canonical key is still there after
    normalization. *)
Lemma alias_survives_counterexample :
  Agent.normalize (JStr "edit_document") (JObj Sample.args_both)
  = Ok (JObj Sample.args_both)
  ∧ Spec.is_alias "old_string" = true
  ∧ Sample.args_both !! "old_string" = Some (JStr "baz").
Proof. split; [| split]; reflexivity. Qed.

(** The same with two aliases of one canonical key: the second one stays. *)
Example lower_alias_survives :
  Agent.normalize (JStr "edit_document") (JObj Sample.args_two_aliases)
  = Ok (JObj (<["old_str" := JStr "foo"]> {[ "old" := JStr "baz" ]})).
Proof. reflexivity. Qed.

(** Arguments that are not a mapping: the membership tests and [pop] of the
    source raise, and nothing in the loop catches it. *)
Example normalize_non_mapping :
  Agent.normalize (JStr "edit_document") (JStr "old") = Err AttributeError
  ∧ Agent.normalize (JStr "edit_document") (JArr [JStr "old_string"])
    = Err TypeError
  ∧ Agent.normalize (JStr "edit_document") (JInt 5) = Err TypeError
  ∧ Agent.normalize (JStr "read_doc_contents") (JInt 5) = Ok (JInt 5).
Proof. repeat split. Qed.

(** C4. On a mapping, normalization computes what the alias table
    prescribes: for each canonical parameter that is absent, the aliases
    are consulted in priority order, the first one present is removed and
    its value goes under the canonical key.  The two examples of the
    specification come out as stated. *)
Theorem normalize_alias_priority (o : gmap string json) :
  Agent.normalize (JStr "edit_document") (JObj o) = Ok (JObj (Spec.normalized o))
  ∧ (∀ canonical aliases a v,
       (canonical, aliases) ∈ Spec.alias_table →
       o !! canonical = None →
       Spec.first_present aliases o = Some (a, v) →
       Spec.normalized o !! canonical = Some v
       ∧ Spec.normalized o !! a = None)
  ∧ Agent.normalize (JStr "edit_document") (JObj Sample.args_alias_new)
    = Ok (JObj Sample.args_canonical)
  ∧ Agent.normalize (JStr "edit_document") (JObj Sample.args_misspelled)
    = Ok (JObj Sample.args_canonical).
Proof.
  split; [apply normalize_dict |]. split; [| split; reflexivity].
  intros canonical aliases a v Hrow Hc Hf. rewrite normalized_rows.
  set (row_old := ("old_str", ["old_string"; "old"])).
  set (row_new := ("new_str", ["new_string"; "new_striing"; "new"])).
  pose proof (first_present_Some _ _ _ _ Hf) as [Ha _].
  unfold Spec.alias_table in Hrow.
  apply elem_of_cons in Hrow as [[= -> ->] | Hrow];
    [| apply elem_of_cons in Hrow as [[= -> ->] | Hrow];
       [| by apply elem_of_nil in Hrow]].
  - assert (a ≠ "old_str") as Hne by set_solver.
    destruct (apply_row_rename row_old o a v Hne Hc Hf) as [H1 H2].
    rewrite !(apply_row_other row_new) by (simpl; set_solver). done.
  - assert (a ≠ "new_str") as Hne by set_solver.
    apply (apply_row_rename row_new); [done | |].
    + rewrite apply_row_other by (simpl; set_solver). done.
    + rewrite <- Hf. apply first_present_ext. intros b Hb.
      apply apply_row_other; simpl; set_solver.
Qed.

Lemma normalize_alias_priority_witness :
  Spec.normalized Sample.args_alias_new !! "new_str" = Some (JStr "bar")
  ∧ Spec.normalized Sample.args_alias_new !! "new" = None.
Proof.
  apply (proj1 (proj2 (normalize_alias_priority Sample.args_alias_new))
           "new_str" ["new_string"; "new_striing"; "new"] "new" (JStr "bar")).
  - unfold Spec.alias_table. repeat constructor.
  - reflexivity.
  - reflexivity.
Defined.

(** C5. A mapping with the canonical keys only is left as it is, and what
    normalization leaves under a key was supplied by the model under that
    key or, for a canonical key, under one of its aliases. *)
Theorem normalize_idempotent_no_invention (o : gmap string json) :
  Agent.normalize (JStr "edit_document") (JObj o) = Ok (JObj (Spec.normalized o))
  ∧ (dom o ⊆ {[ "old_str"; "new_str" ]} → Spec.normalized o = o)
  ∧ (∀ k v,
       Spec.normalized o !! k = Some v →
       o !! k = Some v
       ∨ ∃ aliases a,
           (k, aliases) ∈ Spec.alias_table ∧ a ∈ aliases ∧ o !! a = Some v).
Proof.
  split; [apply normalize_dict |]. split.
  - intros Hdom. rewrite normalized_rows.
    assert (∀ a, a ∈ ["old_string"; "old"; "new_string"; "new_striing"; "new"] →
                 o !! a = None) as Hnone.
    { intros a Ha. apply not_elem_of_dom. intros Hin.
      apply Hdom in Hin. set_solver. }
    rewrite (apply_row_no_alias ("old_str", _) o)
      by (intros a Ha; apply Hnone; set_solver).
    apply apply_row_no_alias. intros a Ha. apply Hnone. set_solver.
  - intros k v. rewrite normalized_rows. intros H.
    apply apply_row_supplied in H as [H | (-> & a & Ha & H)].
    + apply apply_row_supplied in H as [H | (-> & a & Ha & H)]; [by left |].
      right. exists ["old_string"; "old"], a. split; [| done].
      unfold Spec.alias_table. set_solver.
    + rewrite apply_row_other in H by (simpl in *; set_solver).
      right. exists ["new_string"; "new_striing"; "new"], a. split; [| done].
      unfold Spec.alias_table. set_solver.
Qed.

Lemma normalize_idempotent_no_invention_witness :
  Spec.normalized Sample.args_canonical = Sample.args_canonical
  ∧ Agent.normalize (JStr "edit_document") (JObj Sample.args_canonical)
    = Ok (JObj Sample.args_canonical).
Proof.
  destruct (normalize_idempotent_no_invention Sample.args_canonical)
    as (H1 & H2 & _).
  assert (Spec.normalized Sample.args_canonical = Sample.args_canonical) as E.
  { apply H2.
    apply (bool_decide_unpack
             (dom Sample.args_canonical ⊆ ({[ "old_str"; "new_str" ]} : gset string))).
    vm_compute. exact I. }
  split; [exact E | by rewrite H1, E].
Defined.

(** ** Tool results *)

Lemma first_text_app pre t post :
  Forall (λ b, Spec.is_text b = false) pre →
  Agent.first_text (pre ++ TextContent t :: post) = Some t.
Proof.
  induction 1 as [|b pre Hb _ IH]; simpl; [done |].
  by destruct b.
Qed.

Lemma first_text_none blocks :
  Forall (λ b, Spec.is_text b = false) blocks →
  Agent.first_text blocks = None.
Proof.
  induction 1 as [|b blocks Hb _ IH]; simpl; [done |].
  by destruct b.
Qed.

(** C8. The text of a tool result: the "result" field of the structured
    payload when there is one; otherwise the text of the first text block
    of a non-empty content, or the representation of the content when it
    has no text block; otherwise the representation of the whole result. *)
Theorem tool_result_reduction `{Runtime} (r : CallToolResult) (other : json) :
  (∀ payload v,
     structuredContent r = Some payload → payload !! "result" = Some v →
     Agent.extract_tool_result_text (IsCallToolResult r) = py_str v)
  ∧ (Spec.no_result_field r →
     ∀ pre t post,
       result_content r = pre ++ TextContent t :: post →
       Forall (λ b, Spec.is_text b = false) pre →
       Agent.extract_tool_result_text (IsCallToolResult r) = t)
  ∧ (Spec.no_result_field r →
     result_content r ≠ [] →
     Forall (λ b, Spec.is_text b = false) (result_content r) →
     Agent.extract_tool_result_text (IsCallToolResult r)
     = repr_content (result_content r))
  ∧ (Spec.no_result_field r →
     result_content r = [] →
     Agent.extract_tool_result_text (IsCallToolResult r)
     = repr_result (IsCallToolResult r))
  ∧ Agent.extract_tool_result_text (OtherResult other)
    = repr_result (OtherResult other).
Proof.
  assert (Spec.no_result_field r →
          structuredContent r ≫= (λ d, d !! "result") = None) as Hno.
  { intros Hn. destruct (structuredContent r) as [payload|] eqn:E; [| done].
    simpl. by apply Hn. }
  unfold Agent.extract_tool_result_text.
  split; [| split; [| split; [| split]]].
  - intros payload v -> Hv. simpl. by rewrite Hv.
  - intros Hn pre t post Hc Hpre. rewrite (Hno Hn).
    pose proof (first_text_app pre t post Hpre) as Hf. rewrite <- Hc in Hf.
    destruct (result_content r) as [|b l]; [by destruct pre |].
    by rewrite Hf.
  - intros Hn Hne Hall. rewrite (Hno Hn).
    pose proof (first_text_none _ Hall) as Hf.
    destruct (result_content r) as [|b l]; [done |]. by rewrite Hf.
  - intros Hn Hc. by rewrite (Hno Hn), Hc.
  - done.
Qed.

Lemma tool_result_reduction_witness :
  @Agent.extract_tool_result_text Sample.runtime
    (IsCallToolResult Sample.result_structured) = "structured"
  ∧ @Agent.extract_tool_result_text Sample.runtime
      (IsCallToolResult Sample.result_blocks) = "first"
  ∧ @Agent.extract_tool_result_text Sample.runtime
      (IsCallToolResult Sample.result_no_text) = "<content>"
  ∧ @Agent.extract_tool_result_text Sample.runtime
      (IsCallToolResult Sample.result_empty) = "<result>".
Proof.
  split; [| split; [| split]].
  - apply (proj1 (@tool_result_reduction Sample.runtime
                    Sample.result_structured JNull)
             {[ "result" := JStr "structured" ]} (JStr "structured"));
      reflexivity.
  - apply (proj1 (proj2 (@tool_result_reduction Sample.runtime
                           Sample.result_blocks JNull))
             ltac:(intros payload; discriminate)
             [OtherContent JNull] "first" [TextContent "second"]).
    + reflexivity.
    + repeat constructor.
  - apply (proj1 (proj2 (proj2 (@tool_result_reduction Sample.runtime
                                  Sample.result_no_text JNull)))).
    + intros payload [= <-]. reflexivity.
    + discriminate.
    + repeat constructor.
  - apply (proj1 (proj2 (proj2 (proj2 (@tool_result_reduction Sample.runtime
                                         Sample.result_empty JNull))))).
    + intros payload; discriminate.
    + reflexivity.
Defined.

(** ** Classification of a parsed reply *)

(** C3, as the code has it. A mapping with "answer" and without "tool" is an
    answer, reported without any tool call; a mapping with "tool" is a tool
    call with the value of "arguments", or with the empty mapping when
    "arguments" is absent or its value is false in a Boolean context
    (null, false, zero, an empty string, list or mapping); every other
    value is reported as it is, without any tool call and without an
    exception, and is not a malformed reply. *)
Theorem classify_shapes `{Runtime} (obj : json) (user_input : string) :
  match obj with
  | JObj o =>
      match o !! "tool", o !! "answer" with
      | Some tool_name, _ =>
          Agent.classify obj
          = Agent.ToolCall tool_name
              match o !! "arguments" with
              | Some a => if Py.truthy a then a else JObj ∅
              | None => JObj ∅
              end
      | None, Some answer =>
          Agent.classify obj = Agent.Answer answer
          ∧ Loop.dispatch user_input (Agent.classify obj)
            = ([Loop.Print (Loop.OutAnswer answer)], Loop.Continue)
      | None, None =>
          Agent.classify obj = Agent.Unrecognized obj
          ∧ Loop.dispatch user_input (Agent.classify obj)
            = ([Loop.Print (Loop.OutNoAnswerNoTool obj)], Loop.Continue)
      end
  | _ =>
      Agent.classify obj = Agent.Unrecognized obj
      ∧ Loop.dispatch user_input (Agent.classify obj)
        = ([Loop.Print (Loop.OutNoAnswerNoTool obj)], Loop.Continue)
  end.
Proof.
  unfold Agent.classify, Agent.get_arguments, Py.or.
  destruct obj as [| | | | | |o]; try done. simpl.
  destruct (o !! "tool") as [t|] eqn:Et; simpl.
  - destruct (o !! "answer"); simpl; by destruct (o !! "arguments").
  - by destruct (o !! "answer").
Qed.

(** Here "arguments" is present, its value is an empty list, and the tool
    call carries the empty mapping instead. *)
Lemma arguments_value_counterexample :
  Sample.obj_list_arguments !! "arguments" = Some (JArr [])
  ∧ Agent.classify (JObj Sample.obj_list_arguments)
    = Agent.ToolCall (JStr "read_doc_contents") (JObj ∅)
  ∧ JObj ∅ ≠ JArr [].
Proof. split; [| split]; [reflexivity | reflexivity | discriminate]. Qed.

(** ** One iteration of the loop *)

(** A line that is neither blank nor an exit word goes to the model, and
    the iteration follows the interpretation of its reply. *)
Lemma turn_dispatch `{Runtime} (system_prompt line : string)
    (first_response : LocalMessage) :
  let user_input := Str.strip line in
  let messages := [("system", system_prompt); ("user", user_input)] in
  String.eqb user_input EmptyString = false →
  Loop.is_exit (Str.lower user_input) = false →
  claude_chat messages = Ok first_response →
  Loop.turn system_prompt line
  = (Loop.Chat messages
       :: (Loop.dispatch user_input
             (Agent.interpret (Claude.text_from_message first_response))).1,
     (Loop.dispatch user_input
        (Agent.interpret (Claude.text_from_message first_response))).2).
Proof.
  intros user_input messages Hne Hexit Hchat. unfold Loop.turn.
  fold user_input. rewrite Hne, Hexit. fold messages. rewrite Hchat.
  by destruct (Loop.dispatch user_input _).
Qed.

(** After an iteration that ends with [continue], the loop reads the next
    line. *)
Lemma loop_continues `{Runtime} (system_prompt line : string)
    (rest : list string) (events : list Loop.event) :
  Loop.turn system_prompt line = (events, Loop.Continue) →
  Loop.chat_with_tools system_prompt (line :: rest)
  = (events ++ (Loop.chat_with_tools system_prompt rest).1,
     (Loop.chat_with_tools system_prompt rest).2).
Proof.
  intros Ht. simpl. rewrite Ht.
  by destruct (Loop.chat_with_tools system_prompt rest).
Qed.




(** C7. In an iteration whose reply is a tool call, a tool invocation that
    raises is reported with the tool name and the reason, no synthesis call
    follows and the iteration goes back to reading the next line; an
    invocation that returns is followed by exactly one synthesis call.
    (When normalization itself raises, no tool is invoked at all.) *)
Theorem tool_failure_skips_synthesis `{Runtime} (system_prompt line : string)
    (first_response : LocalMessage) (tool_name arguments : json) :
  let user_input := Str.strip line in
  let messages := [("system", system_prompt); ("user", user_input)] in
  String.eqb user_input EmptyString = false →
  Loop.is_exit (Str.lower user_input) = false →
  claude_chat messages = Ok first_response →
  Agent.interpret (Claude.text_from_message first_response)
  = Agent.ToolCall tool_name arguments →
  match Agent.normalize tool_name arguments with
  | Err e => Loop.turn system_prompt line = ([Loop.Chat messages], Loop.Uncaught e)
  | Ok normalized =>
      match call_tool tool_name normalized with
      | Err e =>
          Loop.turn system_prompt line
          = ([Loop.Chat messages;
              Loop.Print (Loop.OutToolRequest tool_name normalized);
              Loop.CallTool tool_name normalized;
              Loop.Print (Loop.OutToolError tool_name e)],
             Loop.Continue)
          ∧ ∀ rest,
              Loop.chat_with_tools system_prompt (line :: rest)
              = ((Loop.turn system_prompt line).1
                   ++ (Loop.chat_with_tools system_prompt rest).1,
                 (Loop.chat_with_tools system_prompt rest).2)
      | Ok tool_result =>
          let tool_text := Agent.extract_tool_result_text tool_result in
          ∃ rest c,
            Loop.turn system_prompt line
            = (Loop.Chat messages
                 :: Loop.Print (Loop.OutToolRequest tool_name normalized)
                 :: Loop.CallTool tool_name normalized
                 :: Loop.Print (Loop.OutToolResult tool_name tool_text)
                 :: Loop.Chat
                      [("system", Loop.followup_system);
                       ("user",
                        Loop.followup_user user_input tool_name tool_text)]
                 :: rest,
               c)
            ∧ Loop.chats rest = 0 ∧ Loop.tool_calls rest = 0
      end
  end.
Proof.
  intros user_input messages Hne Hexit Hchat Hi.
  pose proof (turn_dispatch system_prompt line first_response Hne Hexit Hchat)
    as Ht.
  fold user_input messages in Ht. rewrite Hi in Ht. simpl in Ht.
  unfold Loop.run_tool in Ht.
  destruct (Agent.normalize tool_name arguments) as [normalized | e]; [| done].
  destruct (call_tool tool_name normalized) as [r | e].
  - clear Hchat. simpl in Ht.
    destruct (claude_chat _) as [second | e]; simpl in Ht;
      rewrite Ht; by eexists _, _.
  - simpl in Ht. split; [done |]. intros rest.
    rewrite (loop_continues system_prompt line rest _ Ht). by rewrite Ht.
Qed.

Lemma tool_failure_skips_synthesis_witness :
  @Loop.turn Sample.runtime "SYS" "usa otra"
  = ([Loop.Chat [("system", "SYS"); ("user", "usa otra")];
      Loop.Print (Loop.OutToolRequest (JStr "unknown_tool") (JObj ∅));
      Loop.CallTool (JStr "unknown_tool") (JObj ∅);
      Loop.Print
        (Loop.OutToolError (JStr "unknown_tool")
           (Raised "Unknown tool: unknown_tool"))],
     Loop.Continue).
Proof.
  apply (proj1 (@tool_failure_skips_synthesis Sample.runtime "SYS" "usa otra"
           (Sample.reply
              ("{" +:+ Sample.quoted "tool" +:+ ": "
               +:+ Sample.quoted "unknown_tool" +:+ ", "
               +:+ Sample.quoted "arguments" +:+ ": {}}"))
           (JStr "unknown_tool") (JObj ∅)
           ltac:(vm_compute; reflexivity) ltac:(vm_compute; reflexivity)
           ltac:(vm_compute; reflexivity) ltac:(vm_compute; reflexivity))).
Defined.

(** Scenario E: two iterations with a tool call that returns make one
    synthesis call each, four model calls and two tool calls in all. *)
Example two_tool_turns :
  let run :=
    @Loop.chat_with_tools Sample.runtime "SYS"
      ["lee el informe"; EmptyString; "lee el informe"; "salir"] in
  Loop.chats run.1 = 4 ∧ Loop.tool_calls run.1 = 2 ∧ run.2 = Loop.Break.
Proof. vm_compute. repeat split. Qed.

(** One such iteration. *)
Example successful_tool_turn :
  Loop.chats (@Loop.turn Sample.runtime "SYS" "lee el informe").1 = 2
  ∧ Loop.tool_calls (@Loop.turn Sample.runtime "SYS" "lee el informe").1 = 1
  ∧ (@Loop.turn Sample.runtime "SYS" "lee el informe").2 = Loop.Continue.
Proof. vm_compute. repeat split. Qed.

(** ** The theorems at concrete inputs *)




Lemma edit_document_frame_witness :
  (Server.edit_document "report.pdf" "20m" "30m" Server.docs0).1
  = Ok "The report details the state of a 30m condenser tower."
  ∧ (Server.edit_document "report.pdf" "20m" "30m" Server.docs0).2 !! "plan.md"
    = Server.docs0 !! "plan.md"
  ∧ Server.edit_document "memo.txt" "20m" "30m" Server.docs0
    = (Err (Server.not_found "memo.txt"), Server.docs0).
Proof.
  pose proof (edit_document_frame "report.pdf" "20m" "30m" Server.docs0) as H1.
  pose proof (edit_document_frame "memo.txt" "20m" "30m" Server.docs0) as H2.
  change (Server.docs0 !! "report.pdf")
    with (Some "The report details the state of a 20m condenser tower.") in H1.
  change (Server.docs0 !! "memo.txt") with (@None string) in H2.
  destruct H1 as (edited & He & _ & Hother & _ & -> & _ & _).
  rewrite He. split; [reflexivity |]. split; [| exact H2].
  apply Hother. discriminate.
Defined.

(** An empty [old_str] on a document of three characters. *)
Example edit_document_empty_old :
  (Server.edit_document "a.txt" EmptyString "-" {[ "a.txt" := "abc" ]}).1
  = Ok "-a-b-c-".
Proof. reflexivity. Qed.

(** Scenario A and scenario D of the specification. *)
Example scenario_a :
  @Agent.interpret Sample.runtime
    ("```json" +:+ Loop.nl
     +:+ "{" +:+ Sample.quoted "tool" +:+ ": " +:+ Sample.quoted "read_doc_contents"
     +:+ ", " +:+ Sample.quoted "arguments" +:+ ": {"
     +:+ Sample.quoted "doc_id" +:+ ": " +:+ Sample.quoted "report.pdf" +:+ "}}"
     +:+ Loop.nl +:+ "```")
  = Agent.ToolCall (JStr "read_doc_contents")
      (JObj {[ "doc_id" := JStr "report.pdf" ]}).
Proof. vm_compute. reflexivity. Qed.

Example scenario_d :
  match
    Sample.loads
      ("{" +:+ Sample.quoted "tool" +:+ ":" +:+ Sample.quoted "edit_document"
       +:+ "," +:+ Sample.quoted "arguments" +:+ ":{"
       +:+ Sample.quoted "old_string" +:+ ":" +:+ Sample.quoted "foo" +:+ ","
       +:+ Sample.quoted "new_striing" +:+ ":" +:+ Sample.quoted "bar" +:+ "}}")
  with
  | Some obj =>
      match Agent.classify obj with
      | Agent.ToolCall tool_name arguments =>
          Agent.normalize tool_name arguments = Ok (JObj Sample.args_canonical)
      | _ => False
      end
  | None => False
  end.
Proof. vm_compute. reflexivity. Qed.

(** A reply with an answer in a tagged fence is an answer. *)
Example tagged_answer :
  @Agent.interpret Sample.runtime Sample.reply_tagged = Agent.Answer (JStr "X").
Proof. vm_compute. reflexivity. Qed.

(* ================================================================== *)
(** * Part II, continued: the code around the loop *)
(* ================================================================== *)

(** ** Texts that [strip] leaves alone *)

Lemma snoc_view (s : string) :
  s = EmptyString ∨ ∃ r c, s = r +:+ String c EmptyString.
Proof.
  induction s as [|x s [-> | (r & c & ->)]]; [by left | right | right].
  - by exists EmptyString, x.
  - by exists (String x r), c.
Qed.

Lemma strip_fixed (t : string) :
  (∀ c r, t = String c r → Str.isspace c = false) →
  (∀ r c, t = r +:+ String c EmptyString → Str.isspace c = false) →
  Str.strip t = t.
Proof.
  intros Hhead Hlast. unfold Str.strip.
  assert (Str.lstrip t = t) as ->.
  { destruct t as [|c r]; simpl; [done |]. by rewrite (Hhead c r). }
  destruct (rstrip_split t) as (ws & Ht & Hws).
  destruct (snoc_view ws) as [-> | (r & c & ->)].
  - by rewrite append_nil_r in Ht.
  - rewrite all_app in Hws. simpl in Hws.
    apply andb_prop in Hws as [_ Hc]. rewrite andb_true_r in Hc.
    rewrite <- append_assoc in Ht. apply Hlast in Ht. congruence.
Qed.

Lemma strip_idem (s : string) : Str.strip (Str.strip s) = Str.strip s.
Proof.
  destruct (strip_trimmed s) as (_ & Hhead & Hlast). by apply strip_fixed.
Qed.

(** X1. What the two cleaners return has no white space around it:
    the candidate of [extract_json_from_text] and the text of
    [strip_thinking] and of [text_from_message] are left as they are by
    [strip], and neither their first nor their last character is white
    space. *)
Theorem cleaners_return_trimmed `{Runtime} (text : string)
    (message : LocalMessage) :
  let trimmed (t : string) :=
    Str.strip t = t
    ∧ (∀ c r, t = String c r → Str.isspace c = false)
    ∧ (∀ r c, t = r +:+ String c EmptyString → Str.isspace c = false) in
  trimmed (Agent.extract_json_from_text text)
  ∧ trimmed (Claude.strip_thinking text)
  ∧ trimmed (Claude.text_from_message message).
Proof.
  assert (∀ s, Str.strip (Str.strip s) = Str.strip s
               ∧ (∀ c r, Str.strip s = String c r → Str.isspace c = false)
               ∧ (∀ r c, Str.strip s = r +:+ String c EmptyString →
                          Str.isspace c = false)) as Hstrip.
  { intros s. split; [apply strip_idem |].
    by destruct (strip_trimmed s) as (_ & ? & ?). }
  cbv zeta. split; [| split].
  - unfold Agent.extract_json_from_text.
    destruct (Re.search Agent.json_fence _); [apply Hstrip |].
    destruct (Re.search Agent.any_fence _); apply Hstrip.
  - apply Hstrip.
  - apply Hstrip.
Qed.

(** ** The description of the tools *)

Lemma split_one_line (a : string) :
  Lines.one_line a = true → Lines.split a = [a].
Proof.
  unfold Lines.one_line. induction a as [|c a IH]; simpl; [done |].
  intros [Hc Ha]%andb_prop. apply negb_true_iff in Hc. rewrite Hc.
  by rewrite (IH Ha).
Qed.

Lemma split_app (a b : string) :
  Lines.one_line a = true →
  Lines.split (a +:+ Chr.nl +:+ b) = a :: Lines.split b.
Proof.
  unfold Lines.one_line. induction a as [|c a IH]; [done |].
  cbn [String.append Lines.split Str.all].
  intros [Hc Ha]%andb_prop. apply negb_true_iff in Hc. rewrite Hc.
  by rewrite (IH Ha).
Qed.

Lemma one_line_app (a b : string) :
  Lines.one_line (a +:+ b) = Lines.one_line a && Lines.one_line b.
Proof. apply all_app. Qed.

Lemma split_join (parts : list string) :
  Forall (λ p, Lines.one_line p = true) parts →
  Lines.split (Str.join Chr.nl parts)
  = match parts with [] => [EmptyString] | _ => parts end.
Proof.
  induction 1 as [|p parts Hp _ IH]; [done |].
  destruct parts as [|q parts].
  - simpl. by apply split_one_line.
  - change (Str.join Chr.nl (p :: q :: parts))
      with (p +:+ Chr.nl +:+ Str.join Chr.nl (q :: parts)).
    rewrite split_app by done. by rewrite IH.
Qed.

(** X2. [build_tools_description] writes one line per tool, in the order
    of the list: when no name and no description holds a line feed, the
    lines of the text are the lines ["- name: description"] of the tools,
    a tool without description (or with an empty one) giving
    ["- name: "]; with no tool at all the text is empty. *)
Theorem tools_description_lines (tools : list Setup.Tool) :
  (∀ t, t ∈ tools →
        Lines.one_line (Setup.name t) = true
        ∧ ∀ d, Setup.description t = Some d → Lines.one_line d = true) →
  Lines.split (Setup.build_tools_description tools)
  = match tools with
    | [] => [EmptyString]
    | _ =>
        map (λ t, "- " +:+ Setup.name t +:+ ": "
                  +:+ match Setup.description t with
                      | Some d => d
                      | None => EmptyString
                      end) tools
    end.
Proof.
  intros Hlines. unfold Setup.build_tools_description.
  rewrite split_join.
  - destruct tools as [|t tools]; [done |].
    apply (map_ext Setup.tool_line). intros x.
    unfold Setup.tool_line. by destruct (Setup.description x) as [[|c d]|].
  - apply Forall_forall. intros line Hin.
    apply list_elem_of_In, in_map_iff in Hin as (t & <- & Hin).
    apply list_elem_of_In, Hlines in Hin as [Hname Hdesc].
    unfold Setup.tool_line. rewrite !one_line_app, Hname. simpl.
    destruct (Setup.description t) as [[|c d]|]; simpl; [done | | done].
    by apply Hdesc.
Qed.

(** ** The system prompt *)

(** X3. The system prompt is the fixed text with the description of the
    tools in the middle: [strip] removes the line feed at each end of the
    f-string and nothing of the description, whatever it is (empty, or
    made of white space). *)
Theorem system_prompt_embeds (tools_description : string) :
  Setup.system_prompt tools_description
  = Setup.prompt_head +:+ tools_description +:+ Setup.prompt_tail
  ∧ Spec.occurs tools_description (Setup.system_prompt tools_description).
Proof.
  assert (Setup.system_prompt tools_description
          = Setup.prompt_head +:+ tools_description +:+ Setup.prompt_tail)
    as Heq.
  { unfold Setup.system_prompt.
    set (h := match Setup.prompt_head with
              | String _ r => r
              | EmptyString => EmptyString
              end).
    set (t := Str.take (String.length Setup.prompt_tail - 1) Setup.prompt_tail).
    assert (Setup.prompt_head = String "E" h) as -> by (vm_compute; reflexivity).
    assert (Setup.prompt_tail = t +:+ String "." EmptyString) as ->
      by (vm_compute; reflexivity).
    clearbody h t.
    replace (Chr.nl +:+ String "E" h +:+ tools_description
             +:+ (t +:+ String "." EmptyString) +:+ Chr.nl)
      with (Chr.nl +:+ String "E" ((h +:+ tools_description +:+ t)
                                     +:+ String "." Chr.nl)).
    - rewrite strip_around by reflexivity.
      cbn [Str.lstrip Str.rstrip Chr.nl Str.isspace String.append].
      change (Str.lstrip Chr.nl) with EmptyString.
      change (Str.rstrip Chr.nl) with EmptyString.
      cbn [String.append]. by rewrite !append_assoc.
    - cbn [String.append]. f_equal. cbn [String.append]. f_equal.
      by rewrite !append_assoc. }
  split; [done |]. rewrite Heq. by exists Setup.prompt_head, Setup.prompt_tail.
Qed.

(** ** The work of the loop *)

Lemma chats_app (a b : list Loop.event) :
  Loop.chats (a ++ b) = Loop.chats a + Loop.chats b.
Proof. unfold Loop.chats. by rewrite filter_app, length_app. Qed.

Lemma tool_calls_app (a b : list Loop.event) :
  Loop.tool_calls (a ++ b) = Loop.tool_calls a + Loop.tool_calls b.
Proof. unfold Loop.tool_calls. by rewrite filter_app, length_app. Qed.

(** After the decision call: at most one tool call, and a second model
    call only after it. *)
Lemma dispatch_work `{Runtime} (user_input : string) (d : Agent.directive) :
  Loop.tool_calls (Loop.dispatch user_input d).1 ≤ 1
  ∧ Loop.chats (Loop.dispatch user_input d).1
    ≤ Loop.tool_calls (Loop.dispatch user_input d).1
  ∧ (Loop.dispatch user_input d).2 ≠ Loop.Break.
Proof.
  assert (∀ (events : list Loop.event) (c : Loop.control),
            Loop.tool_calls events ≤ 1 →
            Loop.chats events ≤ Loop.tool_calls events →
            c ≠ Loop.Break →
            Loop.tool_calls (events, c).1 ≤ 1
            ∧ Loop.chats (events, c).1 ≤ Loop.tool_calls (events, c).1
            ∧ (events, c).2 ≠ Loop.Break) as Hpack by done.
  destruct d as [raw_text clean_text | answer | tool_name arguments | obj | e];
    cbn [Loop.dispatch];
    [by apply Hpack; vm_compute; try lia .. | |
     by apply Hpack; vm_compute; try lia | by apply Hpack; vm_compute; try lia].
  unfold Loop.run_tool.
  destruct (Agent.normalize tool_name arguments) as [normalized | e];
    [| by apply Hpack; vm_compute; try lia].
  destruct (call_tool tool_name normalized) as [r | e];
    [| by apply Hpack; vm_compute; try lia].
  destruct (claude_chat _) as [second | e];
    by apply Hpack; vm_compute; try lia.
Qed.

Lemma turn_work `{Runtime} (system_prompt line : string) :
  Loop.tool_calls (Loop.turn system_prompt line).1 ≤ 1
  ∧ Loop.tool_calls (Loop.turn system_prompt line).1
    ≤ Loop.chats (Loop.turn system_prompt line).1
  ∧ Loop.chats (Loop.turn system_prompt line).1
    ≤ 1 + Loop.tool_calls (Loop.turn system_prompt line).1.
Proof.
  unfold Loop.turn.
  destruct (String.eqb _ _); [vm_compute; lia |].
  destruct (Loop.is_exit _); [vm_compute; lia |].
  destruct (claude_chat _) as [first_response | e]; [| vm_compute; lia].
  pose proof (dispatch_work (Str.strip line)
                (Agent.interpret (Claude.text_from_message first_response)))
    as (H1 & H2 & _).
  destruct (Loop.dispatch _ _) as [events c]. simpl in *.
  change (Loop.Chat ?m :: events) with ([Loop.Chat m] ++ events).
  rewrite chats_app, tool_calls_app.
  change (Loop.chats [Loop.Chat ?m]) with 1.
  change (Loop.tool_calls [Loop.Chat ?m]) with 0. lia.
Qed.

(** X4. Whatever the model and the tools answer, the loop makes at most
    one tool call per line read and at most one model call more than that
    per line: every tool call follows a decision call, and a synthesis
    call is made only after a tool call. *)
Theorem loop_work_bounded `{Runtime} (system_prompt : string)
    (lines : list string) :
  let trace := (Loop.chat_with_tools system_prompt lines).1 in
  Loop.tool_calls trace ≤ length lines
  ∧ Loop.tool_calls trace ≤ Loop.chats trace
  ∧ Loop.chats trace ≤ length lines + Loop.tool_calls trace.
Proof.
  cbv zeta. induction lines as [|line rest IH]; [vm_compute; lia |].
  pose proof (turn_work system_prompt line) as Hturn.
  cbn [Loop.chat_with_tools length].
  destruct (Loop.turn system_prompt line) as [events c].
  destruct (Loop.chat_with_tools system_prompt rest) as [later c'].
  simpl in Hturn, IH.
  destruct c; simpl; rewrite ?chats_app, ?tool_calls_app; lia.
Qed.

(** ** How the loop ends *)

Lemma turn_break `{Runtime} (system_prompt line : string)
    (events : list Loop.event) :
  Loop.turn system_prompt line = (events, Loop.Break) →
  events = [Loop.Print Loop.OutBye]
  ∧ Loop.is_exit (Str.lower (Str.strip line)) = true.
Proof.
  unfold Loop.turn.
  destruct (String.eqb _ _); [done |].
  destruct (Loop.is_exit _); [by intros [= <-] |].
  destruct (claude_chat _) as [first_response | e]; [| done].
  pose proof (dispatch_work (Str.strip line)
                (Agent.interpret (Claude.text_from_message first_response)))
    as (_ & _ & Hc).
  destruct (Loop.dispatch _ _) as [ev c]. simpl in Hc. by intros [= _ ->].
Qed.

(** X5. The loop never goes on for ever on the lines it is given: it ends
    with [break], with an exception, or with the [EOFError] of [input].
    It ends with [break] only at a line that is an exit word once stripped
    and put in lower case; what it did until then is what the lines before
    gave, followed by the farewell, and the lines after it are not read. *)
Theorem loop_ends `{Runtime} (system_prompt : string) (lines : list string) :
  match (Loop.chat_with_tools system_prompt lines).2 with
  | Loop.Continue => False
  | Loop.Break =>
      ∃ before line after,
        lines = before ++ line :: after
        ∧ Loop.is_exit (Str.lower (Str.strip line)) = true
        ∧ (Loop.chat_with_tools system_prompt lines).1
          = (Loop.chat_with_tools system_prompt before).1
            ++ [Loop.Print Loop.OutBye]
  | Loop.Uncaught e => True
  end.
Proof.
  induction lines as [|line rest IH]; [done |].
  destruct (Loop.turn system_prompt line) as [events c] eqn:Hturn.
  destruct c.
  - rewrite (loop_continues _ _ rest _ Hturn). simpl.
    destruct (Loop.chat_with_tools system_prompt rest) as [later c'].
    simpl in *. destruct c'; [done | | done].
    destruct IH as (before & l & after & -> & Hexit & ->).
    exists (line :: before), l, after. split; [done |]. split; [done |].
    rewrite (loop_continues _ _ before _ Hturn). simpl.
    by rewrite app_assoc.
  - cbn [Loop.chat_with_tools]. rewrite Hturn. simpl.
    apply turn_break in Hturn as [-> Hexit].
    by exists [], line, rest.
  - cbn [Loop.chat_with_tools]. by rewrite Hturn.
Qed.

(** The tools of the document server. *)
Lemma tools_description_lines_witness :
  Lines.split (Setup.build_tools_description Cases.tools)
  = ["- read_doc_contents: Read the contents of a document and return it as a string.";
     "- edit_document: Edit a document by replacing a string in the document's content with a new string."].
Proof.
  apply (tools_description_lines Cases.tools).
  intros t Ht. apply list_elem_of_In in Ht.
  destruct Ht as [<- | [<- | []]];
    (split; [reflexivity | intros d [= <-]; reflexivity]).
Defined.

(** ** Failures of the model call *)

(** X6. Nothing in the loop catches an exception of the model call.  When
    the decision call raises, the loop ends with that exception and the
    lines that follow are not read; when the synthesis call raises, the
    loop ends in the same way after the tool has been called and its
    result printed. *)
Theorem model_failure_ends_loop `{Runtime} (system_prompt line : string)
    (rest : list string) :
  let user_input := Str.strip line in
  let messages := [("system", system_prompt); ("user", user_input)] in
  String.eqb user_input EmptyString = false →
  Loop.is_exit (Str.lower user_input) = false →
  match claude_chat messages with
  | Err e =>
      Loop.chat_with_tools system_prompt (line :: rest)
      = ([Loop.Chat messages], Loop.Uncaught e)
  | Ok first_response =>
      ∀ tool_name arguments normalized tool_result e,
        Agent.interpret (Claude.text_from_message first_response)
        = Agent.ToolCall tool_name arguments →
        Agent.normalize tool_name arguments = Ok normalized →
        call_tool tool_name normalized = Ok tool_result →
        let tool_text := Agent.extract_tool_result_text tool_result in
        let followup_messages :=
          [("system", Loop.followup_system);
           ("user", Loop.followup_user user_input tool_name tool_text)] in
        claude_chat followup_messages = Err e →
        Loop.chat_with_tools system_prompt (line :: rest)
        = ([Loop.Chat messages;
            Loop.Print (Loop.OutToolRequest tool_name normalized);
            Loop.CallTool tool_name normalized;
            Loop.Print (Loop.OutToolResult tool_name tool_text);
            Loop.Chat followup_messages],
           Loop.Uncaught e)
  end.
Proof.
  intros user_input messages Hne Hexit.
  destruct (claude_chat messages) as [first_response | e] eqn:Hchat.
  - intros tool_name arguments normalized tool_result e Hi Hn Hcall
      tool_text followup_messages Hfollow.
    pose proof (turn_dispatch system_prompt line first_response Hne Hexit Hchat)
      as Ht.
    fold user_input messages in Ht. rewrite Hi in Ht.
    cbn [Loop.dispatch] in Ht. unfold Loop.run_tool in Ht.
    rewrite Hn, Hcall in Ht. fold tool_text followup_messages in Ht.
    rewrite Hfollow in Ht. cbn [Loop.chat_with_tools]. by rewrite Ht.
  - cbn [Loop.chat_with_tools]. unfold Loop.turn. fold user_input.
    rewrite Hne, Hexit. fold messages. by rewrite Hchat.
Qed.

Lemma model_failure_ends_loop_witness :
  (@Loop.chat_with_tools Cases.flaky "SYS" ["lee el informe"; "salir"]).2
  = Loop.Uncaught (Raised "timed out").
Proof.
  rewrite (@model_failure_ends_loop Cases.flaky "SYS" "lee el informe" ["salir"]
             ltac:(vm_compute; reflexivity) ltac:(vm_compute; reflexivity)
             (JStr "read_doc_contents") (JObj Cases.report_args)
             (JObj Cases.report_args) Cases.report_result
             (Raised "timed out")
             ltac:(vm_compute; reflexivity) ltac:(vm_compute; reflexivity)
             ltac:(vm_compute; reflexivity) ltac:(vm_compute; reflexivity)).
  reflexivity.
Defined.

(** ** Arguments that are not a mapping *)

Lemma contains_prefix (p q s : string) :
  Str.contains (p +:+ q) s = true → Str.contains p s = true.
Proof.
  assert (∀ t, Str.startswith t (p +:+ q) = true → Str.startswith t p = true)
    as Hstart.
  { intros t [r ->]%startswith_true. apply startswith_true.
    exists (q +:+ r). by rewrite append_assoc. }
  induction s as [|c s IH]; cbn [Str.contains].
  - rewrite !orb_false_r. apply Hstart.
  - intros [H | H]%orb_prop; apply orb_true_iff; [left | right]; auto.
Qed.

(** X7. Normalization for [edit_document] when the arguments are not a
    mapping.  A number or [True] raises [TypeError] at the first
    membership test.  On a text the tests look for substrings and on a
    list for elements; when an alias is found that way (and the canonical
    name is not), [pop] raises: [AttributeError] on a text, [TypeError] on
    a list.  Otherwise the value goes on unchanged. *)
Theorem normalize_non_mapping_raises (arguments : json) :
  Agent.normalize (JStr "edit_document") arguments
  = match arguments with
    | JObj o => Ok (JObj (Spec.normalized o))
    | JStr s =>
        if Str.contains "old" s && negb (Str.contains "old_str" s)
           || Str.contains "new" s && negb (Str.contains "new_str" s)
        then Err AttributeError
        else Ok arguments
    | JArr l =>
        let has k := existsb (Py.is_str k) l in
        if negb (has "old_str") && (has "old_string" || has "old")
           || negb (has "new_str")
              && (has "new_string" || has "new_striing" || has "new")
        then Err TypeError
        else Ok arguments
    | _ => Err TypeError
    end.
Proof.
  destruct arguments as [| b | z | f | s | l | o]; try reflexivity.
  - pose proof (contains_prefix "old" "_str" s) as H1.
    pose proof (contains_prefix "old_str" "ing" s) as H2.
    pose proof (contains_prefix "new" "_str" s) as H3.
    pose proof (contains_prefix "new_str" "ing" s) as H4.
    pose proof (contains_prefix "new_str" "iing" s) as H5.
    cbn [String.append] in H1, H2, H3, H4, H5.
    unfold Agent.normalize.
    change (Py.is_str "edit_document" (JStr "edit_document")) with true.
    cbv iota. unfold Agent.normalize_old, Agent.rename.
    cbn [Py.contains Py.pop bind].
    destruct (Str.contains "old_str" s); destruct (Str.contains "old_string" s);
      destruct (Str.contains "old" s); cbn [negb bind andb orb];
      try (by specialize (H1 eq_refl)); try (by specialize (H2 eq_refl));
      try reflexivity;
      unfold Agent.normalize_new, Agent.rename; cbn [Py.contains Py.pop bind];
      destruct (Str.contains "new_str" s);
      destruct (Str.contains "new_string" s);
      destruct (Str.contains "new_striing" s);
      destruct (Str.contains "new" s); cbn [negb bind andb orb];
      try reflexivity;
      try (by specialize (H3 eq_refl)); try (by specialize (H4 eq_refl));
      by specialize (H5 eq_refl).
  - unfold Agent.normalize.
    change (Py.is_str "edit_document" (JStr "edit_document")) with true.
    cbv iota zeta. unfold Agent.normalize_old, Agent.rename.
    cbn [Py.contains Py.pop bind].
    destruct (existsb (Py.is_str "old_str") l);
      destruct (existsb (Py.is_str "old_string") l);
      destruct (existsb (Py.is_str "old") l); cbn [negb bind andb orb];
      try reflexivity;
      unfold Agent.normalize_new, Agent.rename; cbn [Py.contains Py.pop bind];
      destruct (existsb (Py.is_str "new_str") l);
      destruct (existsb (Py.is_str "new_string") l);
      destruct (existsb (Py.is_str "new_striing") l);
      destruct (existsb (Py.is_str "new") l); reflexivity.
  - apply normalize_dict.
Qed.

(** ** The gateway object *)

(** X8. [Claude(model, base_url, api_key)] takes the model from the
    argument, else from LOCAL_LLM_MODEL, else from CLAUDE_MODEL, an empty
    text counting as absent; it raises [ValueError] exactly when the three
    are absent, so that a gateway never has an empty model.  An argument
    [base_url] that is not empty wins over LOCAL_LLM_BASE_URL, which wins
    over the default address. *)
Theorem init_precedence (env : Os.environ) (model_arg : string)
    (base_url_arg api_key_arg : option string) :
  match Gateway.__init__ env model_arg base_url_arg api_key_arg with
  | Ok me =>
      Gateway.model me ≠ EmptyString
      ∧ (model_arg ≠ EmptyString → Gateway.model me = model_arg)
      ∧ (model_arg = EmptyString →
         match env !! "LOCAL_LLM_MODEL" with
         | Some (String c m) => Gateway.model me = String c m
         | _ => env !! "CLAUDE_MODEL" = Some (Gateway.model me)
         end)
      ∧ Gateway.base_url me
        = match base_url_arg, env !! "LOCAL_LLM_BASE_URL" with
          | Some (String c u), _ => String c u
          | _, Some u => u
          | _, None => "http://localhost:1234/v1"
          end
  | Err e =>
      e = ValueError Gateway.no_model
      ∧ model_arg = EmptyString
      ∧ Opt.truthy (env !! "LOCAL_LLM_MODEL") = false
      ∧ Opt.truthy (env !! "CLAUDE_MODEL") = false
  end.
Proof.
  unfold Gateway.__init__, Os.getenv, Os.getenv_default, Opt.or.
  destruct model_arg as [|c m]; cbn [Opt.truthy].
  - destruct (env !! "LOCAL_LLM_MODEL") as [[|c m]|]; cbn [Opt.truthy];
      [| by destruct base_url_arg as [[|]|] | ];
      destruct (env !! "CLAUDE_MODEL") as [[|c m]|]; cbn [Opt.truthy];
      try done; by destruct base_url_arg as [[|]|].
  - by destruct base_url_arg as [[|]|].
Qed.

(** X9. The gateway of [chat_with_tools] is always built: the model is
    LOCAL_LLM_MODEL, else CLAUDE_MODEL, else the default name, an empty
    text counting as absent, and the [ValueError] of the constructor cannot
    be raised there. *)
Theorem agent_gateway_built (env : Os.environ) :
  ∃ me,
    Setup.claude env = Ok me
    ∧ Gateway.model me = Setup.model_name env
    ∧ Gateway.model me
      = match env !! "LOCAL_LLM_MODEL", env !! "CLAUDE_MODEL" with
        | Some (String c m), _ => String c m
        | _, Some (String c m) => String c m
        | _, _ => Setup.default_model
        end.
Proof.
  unfold Setup.claude, Setup.model_name, Gateway.__init__, Os.getenv, Opt.or.
  destruct (env !! "LOCAL_LLM_MODEL") as [[|c m]|]; cbn [Opt.truthy Opt.or_str];
    [| by eexists | ];
    (destruct (env !! "CLAUDE_MODEL") as [[|c m]|]; cbn [Opt.truthy Opt.or_str];
     by eexists).
Qed.

(** ** The request and the reply of [chat] *)

Lemma oa_message_entry `{Runtime} (role content : string) :
  Gateway.oa_message (Gateway.entry (JStr role) (JStr content))
  = Gateway.entry (JStr role) (JStr content).
Proof. reflexivity. Qed.

(** X10. The request of the loop.  For the messages that the loop sends
    (a role and a text each, no [system] argument, temperature 0.0, no stop
    sequence) the body of the request has the three keys "model",
    "messages" and "temperature" and no "stop"; its messages are those of
    the loop, one for one and unchanged. *)
Theorem loop_request `{Runtime} (me : Gateway.self)
    (messages : list (string * string)) :
  let body :=
    Gateway.payload me (Gateway.as_dicts messages) None Gateway.zero None in
  body !! "model" = Some (JStr (Gateway.model me))
  ∧ body !! "messages" = Some (JArr (JObj <$> Gateway.as_dicts messages))
  ∧ body !! "temperature" = Some (JFloat Gateway.zero)
  ∧ body !! "stop" = None
  ∧ dom body = ({[ "model"; "messages"; "temperature" ]} : gset string).
Proof.
  assert (Gateway.oa_messages None (Gateway.as_dicts messages)
          = Gateway.as_dicts messages) as Hsame.
  { unfold Gateway.oa_messages, Gateway.as_dicts.
    induction messages as [|[role content] rest IH]; [done |].
    cbn [map fst snd]. by rewrite IH, oa_message_entry. }
  cbv zeta. unfold Gateway.payload. rewrite Hsame.
  repeat split; by simplify_map_eq.
Qed.

Lemma get_default (k : string) (d : json) (o : gmap string json) :
  Sub.get k d (JObj o) = Return (default d (o !! k)).
Proof. unfold Sub.get. by destruct (o !! k). Qed.

(** The answers on which [chat] returns. *)
Lemma chat_returns `{Runtime} `{Endpoint} (me : Gateway.self)
    (messages : list (gmap string json)) (system : option string)
    (temperature : spec_float) (stop_sequences : option (list string))
    (data choice message : gmap string json) (others : list json)
    (text : json) (tool_use : bool) :
  post_json (Gateway.base_url me +:+ "/chat/completions")
    ("Bearer " +:+ Gateway.api_key me)
    (JObj (Gateway.payload me messages system temperature stop_sequences))
  = Return (JObj data) →
  data !! "choices" = Some (JArr (JObj choice :: others)) →
  choice !! "message" = Some (JObj message) →
  message !! "content" = Some text →
  Sub.in_pair "tool_calls" "function_call"
    (default (JStr "stop") (choice !! "finish_reason"))
  = Return tool_use →
  Gateway.chat me messages system temperature stop_sequences
  = Return {| content :=
                JArr [JObj (<["type" := JStr "text"]> {[ "text" := text ]})];
              stop_reason := if tool_use then "tool_use" else "end" |}.
Proof.
  intros Hpost Hchoices Hmessage Hcontent Hpair.
  unfold Gateway.chat, Gateway.to_message. rewrite Hpost.
  cbn [and_then Sub.getitem]. rewrite Hchoices.
  cbn [and_then Sub.getitem0 Sub.getitem]. rewrite Hmessage.
  cbn [and_then Sub.getitem]. rewrite Hcontent. cbn [and_then].
  rewrite get_default. cbn [and_then]. by rewrite Hpair.
Qed.

(** X11. [chat] returns exactly when the endpoint answers with a mapping
    whose "choices" is a list that starts with a mapping, whose "message"
    is a mapping with a "content", and whose "finish_reason" (if any) can
    be hashed.  The message returned then has one block of type "text"
    with that content, and its stop reason is "tool_use" for the finish
    reasons "tool_calls" and "function_call", "end" for any other. *)
Theorem chat_returns_iff `{Runtime} `{Endpoint} (me : Gateway.self)
    (messages : list (gmap string json)) (system : option string)
    (temperature : spec_float) (stop_sequences : option (list string))
    (reply : LocalMessage) :
  Gateway.chat me messages system temperature stop_sequences = Return reply
  ↔ ∃ (data choice message : gmap string json) (others : list json)
      (text : json) (tool_use : bool),
      post_json (Gateway.base_url me +:+ "/chat/completions")
        ("Bearer " +:+ Gateway.api_key me)
        (JObj (Gateway.payload me messages system temperature stop_sequences))
      = Return (JObj data)
      ∧ data !! "choices" = Some (JArr (JObj choice :: others))
      ∧ choice !! "message" = Some (JObj message)
      ∧ message !! "content" = Some text
      ∧ Sub.in_pair "tool_calls" "function_call"
          (default (JStr "stop") (choice !! "finish_reason"))
        = Return tool_use
      ∧ reply
        = {| content :=
               JArr [JObj (<["type" := JStr "text"]> {[ "text" := text ]})];
             stop_reason := if tool_use then "tool_use" else "end" |}.
Proof.
  unfold Gateway.chat, Gateway.to_message. split.
  - destruct (post_json _ _ _) as [data | e]; [| done]. cbn [and_then].
    destruct data as [| | | | | |data]; try done. cbn [Sub.getitem].
    destruct (data !! "choices") as [choices|] eqn:Hchoices; [| done].
    cbn [and_then].
    destruct choices as [| | | |[|c s]|[|choice others]|]; try done.
    cbn [Sub.getitem0 and_then].
    destruct choice as [| | | | | |choice]; try done. cbn [Sub.getitem].
    destruct (choice !! "message") as [message|] eqn:Hmessage; [| done].
    cbn [and_then].
    destruct message as [| | | | | |message]; try done. cbn [Sub.getitem].
    destruct (message !! "content") as [text|] eqn:Hcontent; [| done].
    cbn [and_then]. rewrite get_default. cbn [and_then].
    destruct (Sub.in_pair _ _ _) as [tool_use | e] eqn:Hpair; [| done].
    cbn [and_then]. intros [= <-].
    by exists data, choice, message, others, text, tool_use.
  - intros (data & choice & message & others & text & tool_use
            & Hpost & Hchoices & Hmessage & Hcontent & Hpair & ->).
    fold (Gateway.to_message).
    by apply (chat_returns me messages system temperature stop_sequences
                data choice message others text tool_use).
Qed.

(** X12. From the endpoint to the loop.  When the first choice of the
    answer holds a text, [text_from_message] on what [chat] returns gives
    that text without its reasoning blocks and without the white space
    around it; the other choices and the finish reason do not matter. *)
Theorem chat_text_round_trip `{Runtime} `{Endpoint} (me : Gateway.self)
    (messages : list (gmap string json)) (system : option string)
    (temperature : spec_float) (stop_sequences : option (list string))
    (data choice message : gmap string json) (others : list json)
    (text : string) (finish : string) :
  post_json (Gateway.base_url me +:+ "/chat/completions")
    ("Bearer " +:+ Gateway.api_key me)
    (JObj (Gateway.payload me messages system temperature stop_sequences))
  = Return (JObj data) →
  data !! "choices" = Some (JArr (JObj choice :: others)) →
  choice !! "message" = Some (JObj message) →
  message !! "content" = Some (JStr text) →
  choice !! "finish_reason" = Some (JStr finish) →
  ∃ reply,
    Gateway.chat me messages system temperature stop_sequences = Return reply
    ∧ Claude.text_from_message reply = Claude.strip_thinking text
    ∧ stop_reason reply
      = if String.eqb finish "tool_calls" || String.eqb finish "function_call"
        then "tool_use" else "end".
Proof.
  intros Hpost Hchoices Hmessage Hcontent Hfinish.
  eexists. split; [| split].
  - apply (chat_returns me messages system temperature stop_sequences
             data choice message others (JStr text)); try done.
    by rewrite Hfinish.
  - unfold Claude.text_from_message, Claude.raw_text. cbn [content].
    cbn [Claude.block_parts]. by simplify_map_eq.
  - reflexivity.
Qed.

(** ** The history of a conversation *)

(** X13. A reply added to the history with [add_assistant_message] goes in
    as its text without reasoning blocks, a question added with
    [add_user_message] goes in as it is, both at the end; and at the next
    [chat] the two reach the endpoint unchanged, after the messages that
    were there. *)
Theorem history_round_trip `{Runtime} (messages : list (gmap string json))
    (reply : LocalMessage) (question : string) (system : option string) :
  let history :=
    Gateway.add_user_message
      (Gateway.add_assistant_message messages (Gateway.OfLocalMessage reply))
      (Gateway.OfValue (JStr question)) in
  history
  = messages
    ++ [Gateway.entry (JStr "assistant") (JStr (Claude.text_from_message reply));
        Gateway.entry (JStr "user") (JStr question)]
  ∧ Gateway.oa_messages system history
    = Gateway.oa_messages system messages
      ++ [Gateway.entry (JStr "assistant")
            (JStr (Claude.text_from_message reply));
          Gateway.entry (JStr "user") (JStr question)].
Proof.
  cbv zeta.
  assert (Gateway.add_user_message
            (Gateway.add_assistant_message messages (Gateway.OfLocalMessage reply))
            (Gateway.OfValue (JStr question))
          = messages
            ++ [Gateway.entry (JStr "assistant")
                  (JStr (Claude.text_from_message reply));
                Gateway.entry (JStr "user") (JStr question)]) as ->.
  { unfold Gateway.add_user_message, Gateway.add_assistant_message.
    by rewrite <- app_assoc. }
  split; [done |]. unfold Gateway.oa_messages.
  destruct system as [[|c s]|]; rewrite map_app; cbn [map];
    by rewrite !oa_message_entry.
Qed.

(** ** Sessions of the document server *)

Lemma apply_edits_cons (text old_str new_str : string)
    (edits : list (string * string)) :
  Calls.apply_edits text ((old_str, new_str) :: edits)
  = Calls.apply_edits (Str.replace text old_str new_str) edits.
Proof. reflexivity. Qed.

Lemma serve_cons (c : Calls.call) (rest : list Calls.call)
    (docs : gmap string string) :
  (Calls.serve (c :: rest) docs).2
  = (Calls.serve rest (Calls.handle c docs).2).2.
Proof.
  cbn [Calls.serve]. destruct (Calls.handle c docs) as [r docs'].
  cbn [snd]. by destruct (Calls.serve rest docs').
Qed.

(** X14. Through any session of calls to the tools, the resources and the
    prompts, no document is created or deleted, and what [read_document]
    returns for a document at the end is its text at the start with the
    edits that named it applied in order: the other calls, and the edits of
    other documents, leave it as it is. *)
Theorem session_frame (calls : list Calls.call) (docs : gmap string string)
    (doc_id : string) :
  let final := (Calls.serve calls docs).2 in
  dom final = dom docs
  ∧ Server.read_document doc_id final
    = match docs !! doc_id with
      | Some text =>
          Ok (Calls.apply_edits text (Calls.edits_of doc_id calls))
      | None => Err (Server.not_found doc_id)
      end.
Proof.
  cbv zeta.
  assert (∀ calls docs,
            (Calls.serve calls docs).2 !! doc_id
            = (λ text, Calls.apply_edits text (Calls.edits_of doc_id calls))
                <$> docs !! doc_id) as Hlookup.
  { clear. intros calls. induction calls as [|c rest IH]; intros docs.
    - simpl. by destruct (docs !! doc_id).
    - rewrite serve_cons, IH.
      destruct c as [d | d old_str new_str | d | d | d | d]; try done.
      cbn [Calls.handle Calls.edits_of]. unfold Server.edit_document.
      destruct (String.eqb_spec d doc_id) as [-> | Hne].
      + destruct (docs !! doc_id) as [text|] eqn:Hd; cbn [snd].
        * rewrite lookup_insert. by destruct (decide (doc_id = doc_id)).
        * by rewrite Hd.
      + destruct (docs !! d) as [text|] eqn:Hd; cbn [snd]; [| done].
        by rewrite lookup_insert_ne. }
  split.
  - clear. revert docs. induction calls as [|c rest IH]; intros docs; [done |].
    rewrite serve_cons, IH.
    destruct c as [d | d old_str new_str | d | d | d | d]; try done.
    cbn [Calls.handle]. unfold Server.edit_document.
    destruct (docs !! d) as [text|] eqn:Hd; cbn [snd]; [| done].
    apply dom_insert_lookup_L. by rewrite Hd.
  - unfold Server.read_document. rewrite Hlookup.
    by destruct (docs !! doc_id).
Qed.

(** ** Edits that change nothing, edits with an empty [old_str] *)

Lemma interleave_nil (s : string) : Str.interleave EmptyString s = s.
Proof. induction s as [|c s IH]; simpl; [done | by rewrite IH]. Qed.

Lemma replaced_same (old s t : string) : Spec.replaced old old s t → t = s.
Proof. induction 1 as [| pre post out _ _ IH]; [done | by rewrite IH]. Qed.

Lemma replace_same (s old : string) : Str.replace s old old = s.
Proof.
  destruct old as [|c old]; [apply interleave_nil |].
  apply (replaced_same (String c old)). by apply replace_scan_replaced.
Qed.

(** X15. An edit that replaces a text by itself changes nothing: the
    store is the same afterwards, and the call returns the text of the
    document (or raises for an unknown id, as every edit does). *)
Theorem edit_same_text (doc_id text : string) (docs : gmap string string) :
  Server.edit_document doc_id text text docs
  = (Server.read_document doc_id docs, docs).
Proof.
  unfold Server.edit_document, Server.read_document.
  destruct (docs !! doc_id) as [content|] eqn:Hd; [| done].
  rewrite replace_same. by rewrite insert_id.
Qed.

(** X16. An edit with an empty [old_str] is not refused and is not a
    no-op: [new_str] is put before every character of the document and at
    its end, so that a document of [n] characters grows by [n + 1] times
    the length of [new_str]. *)
Theorem edit_empty_old_str (doc_id new_str content : string)
    (docs : gmap string string) :
  docs !! doc_id = Some content →
  ∃ edited,
    Server.edit_document doc_id EmptyString new_str docs
    = (Ok edited, <[doc_id := edited]> docs)
    ∧ String.length edited
      = String.length content
        + (String.length content + 1) * String.length new_str
    ∧ (∀ c rest, content = String c rest →
                 edited = new_str +:+ String c (Str.replace rest EmptyString new_str)).
Proof.
  intros Hd. unfold Server.edit_document. rewrite Hd. eexists.
  split; [done |]. cbn [Str.replace]. split; [apply length_interleave |].
  by intros c rest ->.
Qed.

Lemma edit_empty_old_str_witness :
  ∃ edited,
    Server.edit_document "plan.md" EmptyString "-" Server.docs0
    = (Ok edited, <["plan.md" := edited]> Server.docs0)
    ∧ String.length edited
      = String.length "The plan outlines the steps for the project's implementation."
        + (String.length "The plan outlines the steps for the project's implementation." + 1)
          * String.length "-"
    ∧ (∀ c rest,
         "The plan outlines the steps for the project's implementation."
         = String c rest →
         edited = "-" +:+ String c (Str.replace rest EmptyString "-")).
Proof.
  apply (edit_empty_old_str "plan.md" "-"
           "The plan outlines the steps for the project's implementation."
           Server.docs0).
  reflexivity.
Defined.

(** ** Resources and prompts *)

(** X17. The resource [fetch_doc] and the three prompts read the store as
    [read_document] does: for a document of the store each prompt is its
    fixed instruction followed by the text of the document, unchanged and
    to the end; for any other id the five of them raise the same
    [ValueError], which names the id. *)
Theorem prompts_quote_document (doc_id : string) (docs : gmap string string) :
  match Server.read_document doc_id docs with
  | Ok content =>
      docs !! doc_id = Some content
      ∧ Documents.fetch_doc doc_id docs = Ok content
      ∧ Documents.rewrite_doc_markdown doc_id docs
        = Ok (Documents.rewrite_head +:+ content)
      ∧ Documents.summarize_doc doc_id docs
        = Ok (Documents.summarize_head +:+ content)
      ∧ Documents.format_document doc_id docs
        = Ok (Documents.format_head +:+ content)
  | Err e =>
      docs !! doc_id = None
      ∧ e = ValueError ("Doc with id " +:+ doc_id +:+ " not found")
      ∧ Documents.fetch_doc doc_id docs = Err e
      ∧ Documents.rewrite_doc_markdown doc_id docs = Err e
      ∧ Documents.summarize_doc doc_id docs = Err e
      ∧ Documents.format_document doc_id docs = Err e
  end.
Proof.
  unfold Server.read_document, Documents.fetch_doc,
    Documents.rewrite_doc_markdown, Documents.summarize_doc,
    Documents.format_document.
  by destruct (docs !! doc_id).
Qed.

(** ** The order of the documents *)

Lemma ordered_lookup (doc_id : string) (docs : Ordered.store) :
  Ordered.lookup doc_id docs = Ordered.to_map docs !! doc_id.
Proof.
  unfold Ordered.to_map. induction docs as [|[k v] rest IH]; [done |].
  cbn [Ordered.lookup list_to_map foldr].
  destruct (String.eqb_spec k doc_id) as [-> | Hne].
  - by rewrite lookup_insert, decide_True.
  - by rewrite lookup_insert_ne.
Qed.

Lemma ordered_assign (doc_id text : string) (docs : Ordered.store) :
  Ordered.to_map (Ordered.assign doc_id text docs)
  = <[doc_id := text]> (Ordered.to_map docs).
Proof.
  unfold Ordered.to_map. induction docs as [|[k v] rest IH]; [done |].
  cbn [Ordered.assign].
  destruct (String.eqb_spec k doc_id) as [-> | Hne]; cbn [list_to_map foldr].
  - by rewrite insert_insert_eq.
  - rewrite IH. by apply insert_insert_ne.
Qed.

Lemma ordered_assign_keys (doc_id text : string) (docs : Ordered.store) :
  is_Some (Ordered.lookup doc_id docs) →
  Ordered.list_docs (Ordered.assign doc_id text docs) = Ordered.list_docs docs.
Proof.
  unfold Ordered.list_docs. induction docs as [|[k v] rest IH].
  - by intros [? ?].
  - cbn [Ordered.lookup Ordered.assign].
    destruct (String.eqb k doc_id); [done |].
    intros Hin. cbn [map fst]. by rewrite IH.
Qed.

(** X18. With the store kept in the order of the dict: an edit never
    changes what [list_docs] returns, neither the ids nor their order (at
    start-up the six ids in the order of the source), and it returns and
    stores what [edit_document] does on the store seen as a mapping. *)
Theorem list_docs_stable (doc_id old_str new_str : string)
    (docs : Ordered.store) :
  let after := Ordered.edit_document doc_id old_str new_str docs in
  Ordered.list_docs after.2 = Ordered.list_docs docs
  ∧ (after.1, Ordered.to_map after.2)
    = Server.edit_document doc_id old_str new_str (Ordered.to_map docs)
  ∧ Ordered.to_map Ordered.docs0 = Server.docs0
  ∧ Ordered.list_docs Ordered.docs0
    = ["deposition.md"; "report.pdf"; "financials.docx"; "outlook.pdf";
       "plan.md"; "spec.txt"].
Proof.
  cbv zeta. unfold Ordered.edit_document, Server.edit_document.
  rewrite <- ordered_lookup.
  destruct (Ordered.lookup doc_id docs) as [text|] eqn:Hd; cbn [fst snd].
  - split; [by apply ordered_assign_keys; rewrite Hd |].
    by rewrite ordered_assign.
  - done.
Qed.

(** ** The client of the document server *)

Lemma and_then_return {A : Type} (m : outcome A) :
  and_then m (λ x, Return x) = m.
Proof. by destruct m. Qed.

(** X19. A client that has just been made, and a client after a [cleanup]
    that returns, have no session: each of [read_resource], [list_tools],
    [call_tool], [list_prompts] and [get_prompt] then raises
    [ConnectionError], whatever it is asked.  When closing the exit stack
    raises, [cleanup] raises the same exception: the stack is empty
    afterwards all the same, and the session, which the assignment after
    [aclose] would have forgotten, is still there. *)
Theorem client_refuses_without_session `{Runtime} `{Library}
    (command : string) (args : list string) (env : option (gmap string string))
    (used : Client.MCPClient) :
  let refuses (me : Client.MCPClient) :=
    Client._session me = None
    ∧ (∀ uri, Client.read_resource me uri
              = Raise (ConnectionError Client.not_initialized))
    ∧ Client.list_tools me = Raise (ConnectionError Client.not_initialized)
    ∧ (∀ tool_name tool_input,
         Client.call_tool me tool_name tool_input
         = Raise (ConnectionError Client.not_initialized))
    ∧ Client.list_prompts me = Raise (ConnectionError Client.not_initialized)
    ∧ (∀ prompt_name arguments,
         Client.get_prompt me prompt_name arguments
         = Raise (ConnectionError Client.not_initialized)) in
  refuses (Client.__init__ command args env)
  ∧ match Client.cleanup used with
    | (Return _, after) => refuses after
    | (Raise e, after) =>
        exit_stack_aclose (Client._exit_stack used) = Raise e
        ∧ Client._exit_stack after = []
        ∧ Client._session after = Client._session used
        ∧ Client._command after = Client._command used
        ∧ Client._args after = Client._args used
        ∧ Client._env after = Client._env used
    end
  ∧ (Client.cleanup used).2
    = {| Client._command := Client._command used;
         Client._args := Client._args used;
         Client._env := Client._env used;
         Client._session :=
           match exit_stack_aclose (Client._exit_stack used) with
           | Return _ => None
           | Raise _ => Client._session used
           end;
         Client._exit_stack := [] |}.
Proof.
  cbv zeta. split; [done |]. unfold Client.cleanup.
  by destruct (exit_stack_aclose _).
Qed.

(** X20. [connect] returns exactly when the server process starts, the
    session is entered and its initialization returns.  The client then
    holds that session, with the two contexts on its exit stack, and
    [call_tool] hands the name and the arguments to it and returns its
    result as it is; [list_tools] returns the tools of either shape of
    the library's result.  A session that was entered is kept even when
    its initialization raises. *)
Theorem connect_opens_session `{Library} (me : Client.MCPClient) :
  match Client.connect me with
  | (Return _, after) =>
      ∃ t s,
        stdio_client (Client._command me) (Client._args me) (Client._env me)
        = Return t
        ∧ client_session t = Return s
        ∧ session_initialize s = Return tt
        ∧ Client._session after = Some s
        ∧ Client._exit_stack after = inr s :: inl t :: Client._exit_stack me
        ∧ (∀ tool_name tool_input,
             Client.call_tool after tool_name tool_input
             = session_call_tool s tool_name tool_input)
        ∧ Client.list_tools after
          = match session_list_tools s with
            | Return (Mcp.AsList tools) => Return tools
            | Return (Mcp.AsObject (Some tools)) => Return tools
            | Return (Mcp.AsObject None) => Return []
            | Raise e => Raise e
            end
  | (Raise e, after) =>
      match stdio_client (Client._command me) (Client._args me) (Client._env me) with
      | Raise e' => e' = e ∧ after = me
      | Return t =>
          match client_session t with
          | Raise e' =>
              e' = e
              ∧ Client._session after = Client._session me
              ∧ Client._exit_stack after = inl t :: Client._exit_stack me
          | Return s =>
              session_initialize s = Raise e
              ∧ Client._session after = Some s
          end
      end
  end.
Proof.
  unfold Client.connect.
  destruct (stdio_client _ _ _) as [t | e]; [| done].
  destruct (client_session t) as [s | e] eqn:Hsession; [| done].
  destruct (session_initialize s) as [[] | e] eqn:Hinit; [| done].
  exists t, s. repeat (split; [done |]). split.
  - intros tool_name tool_input. unfold Client.call_tool, Client.session_of.
    cbn [Client._session and_then]. apply and_then_return.
  - unfold Client.list_tools, Client.session_of.
    cbn [Client._session and_then].
    by destruct (session_list_tools s) as [[tools | [tools|]] | e].
Qed.

(** ** The settings and the clients of the command-line program *)

(** X21. The command-line program takes the model from LOCAL_LLM_MODEL
    alone: when the variable is unset or empty it stops on its assertion,
    whatever CLAUDE_MODEL holds, and otherwise the gateway is built with
    that model, so that the [ValueError] of the constructor is never
    raised.  The address is LOCAL_LLM_BASE_URL when it is set, even to
    the empty text, and the default address only when it is unset. *)
Theorem main_gateway (env : Os.environ) :
  Main.claude_service env
  = match env !! "LOCAL_LLM_MODEL" with
    | Some (String c m) =>
        Return {| Gateway.model := String c m;
                  Gateway.base_url :=
                    match env !! "LOCAL_LLM_BASE_URL" with
                    | Some url => url
                    | None => "http://localhost:1234/v1"
                    end;
                  Gateway.api_key :=
                    match env !! "LOCAL_LLM_API_KEY" with
                    | Some key => key
                    | None => "not-needed"
                    end |}
    | _ => Raise (AssertionError Main.empty_model)
    end.
Proof.
  unfold Main.claude_service, Main.LOCAL_LLM_MODEL, Main.LOCAL_LLM_BASE_URL,
    Gateway.__init__, Os.getenv_default, Os.getenv, Opt.or.
  destruct (env !! "LOCAL_LLM_MODEL") as [[|c m]|]; [done | | done].
  cbn [Opt.truthy Opt.or_str].
  by destruct (env !! "LOCAL_LLM_BASE_URL") as [[|d u]|].
Qed.

(** The digits of a number end where the underscore begins. *)
Lemma digits_then_underscore (d d' : Decimal.uint) (s t : string) :
  NilEmpty.string_of_uint d +:+ String "_" s
  = NilEmpty.string_of_uint d' +:+ String "_" t →
  d = d' ∧ s = t.
Proof.
  revert d'.
  induction d as [|d IH|d IH|d IH|d IH|d IH|d IH|d IH|d IH|d IH|d IH];
    intros [|d'|d'|d'|d'|d'|d'|d'|d'|d'|d'];
    cbn [NilEmpty.string_of_uint String.append]; intros Heq;
    try discriminate Heq;
    try (injection Heq as Heq; apply IH in Heq as [-> ->]; done).
  by injection Heq as ->.
Qed.

Lemma client_id_inj (i j : nat) (s t : string) :
  Main.client_id i s = Main.client_id j t → i = j ∧ s = t.
Proof.
  unfold Main.client_id, Main.decimal. cbn [String.append].
  intros Heq. injection Heq as Heq.
  apply digits_then_underscore in Heq as [Heq ->].
  by apply Unsigned.to_uint_inj in Heq as ->.
Qed.

Lemma client_id_not_doc (i : nat) (s : string) :
  Main.client_id i s ≠ "doc_client".
Proof. unfold Main.client_id. cbn [String.append]. discriminate. Qed.

Lemma register_spec (server_scripts : list string) (i : nat)
    (clients : gmap string (string * list string)) :
  (∀ j s, i ≤ j → clients !! Main.client_id j s = None) →
  size (Main.register i server_scripts clients)
  = length server_scripts + size clients
  ∧ (∀ k, (∀ n s, server_scripts !! n = Some s → k ≠ Main.client_id (i + n) s) →
          Main.register i server_scripts clients !! k = clients !! k)
  ∧ (∀ n s, server_scripts !! n = Some s →
            Main.register i server_scripts clients !! Main.client_id (i + n) s
            = Some ("uv", ["run"; s])).
Proof.
  revert i clients.
  induction server_scripts as [|s0 rest IH]; intros i clients Hfresh.
  - by repeat split.
  - cbn [Main.register length].
    set (clients' := <[Main.client_id i s0 := ("uv", ["run"; s0])]> clients).
    destruct (IH (S i) clients') as (Hsize & Hother & Hscript).
    { intros j s Hj. unfold clients'. rewrite lookup_insert_ne.
      - apply Hfresh. lia.
      - intros [Hij _]%client_id_inj. lia. }
    split; [| split].
    + rewrite Hsize. unfold clients'.
      rewrite map_size_insert_None by (by apply Hfresh). lia.
    + intros k Hk. rewrite Hother.
      * unfold clients'. apply lookup_insert_ne.
        specialize (Hk 0 s0 eq_refl). by rewrite Nat.add_0_r in Hk.
      * intros n s Hn. specialize (Hk (S n) s Hn).
        by rewrite Nat.add_succ_r in Hk.
    + intros [|n] s Hn.
      * injection Hn as ->. rewrite Nat.add_0_r, Hother.
        -- unfold clients'. by rewrite lookup_insert_eq.
        -- intros n s' _ [Hij _]%client_id_inj. lia.
      * rewrite Nat.add_succ_r. by apply Hscript.
Qed.

(** X22. No client of the registry is lost: besides "doc_client", which
    is started as USE_UV says, every script of the command line has its
    own entry [client_i_script], started with [uv run script], even when
    the same script is given twice; the registry has one entry more than
    there are scripts. *)
Theorem registry_keeps_every_client (env : Os.environ)
    (server_scripts : list string) :
  let clients := Main.clients env server_scripts in
  size clients = 1 + length server_scripts
  ∧ clients !! "doc_client"
    = Some (if String.eqb (default "0" (env !! "USE_UV")) "1"
            then ("uv", ["run"; "mcp_server.py"])
            else ("python", ["mcp_server.py"]))
  ∧ ∀ i server_script,
      server_scripts !! i = Some server_script →
      clients !! Main.client_id i server_script
      = Some ("uv", ["run"; server_script]).
Proof.
  cbv zeta. unfold Main.clients.
  destruct (register_spec server_scripts 0 {[ "doc_client" := Main.launch env ]})
    as (Hsize & Hother & Hscript).
  { intros j s _. apply lookup_singleton_ne. apply not_eq_sym, client_id_not_doc. }
  split; [| split].
  - rewrite Hsize, map_size_singleton. lia.
  - rewrite Hother.
    + rewrite lookup_singleton_eq. unfold Main.launch, Os.getenv_default.
      by destruct (env !! "USE_UV").
    + intros n s _. apply not_eq_sym, client_id_not_doc.
  - intros i server_script Hi. by apply (Hscript i).
Qed.

(** An answer with a reasoning block. *)
Lemma chat_text_round_trip_witness :
  ∃ reply,
    @Gateway.chat Sample.runtime Cases.endpoint Cases.gateway
      (Gateway.as_dicts [("user", "hola")]) None Gateway.zero None
    = Return reply
    ∧ @Claude.text_from_message Sample.runtime reply
      = Claude.strip_thinking Cases.answer_text
    ∧ stop_reason reply
      = if String.eqb "stop" "tool_calls" || String.eqb "stop" "function_call"
        then "tool_use" else "end".
Proof.
  apply (@chat_text_round_trip Sample.runtime Cases.endpoint Cases.gateway
           (Gateway.as_dicts [("user", "hola")]) None Gateway.zero None
           Cases.answer_body Cases.answer_choice Cases.answer_message []
           Cases.answer_text "stop");
    reflexivity.
Defined.

(** The reply above, as the loop reads it. *)
Example answer_without_reasoning :
  Claude.strip_thinking Cases.answer_text = "La torre mide 20m.".
Proof. reflexivity. Qed.

(** ** The content of a message, as text *)

(** X23. [_message_content_to_text] against the text that
    [text_from_message] works on.  The two agree on a text and on a list
    of blocks that gives at least one part (joined with line feeds); they
    differ on a list that gives no part, which the first turns into its
    [str()] and the second into the empty text, and on a mapping with a
    "text", of which the first takes that field. *)
Theorem content_text_cases `{Runtime} (body : json) (stop : string) :
  let raw := Claude.raw_text {| content := body; stop_reason := stop |} in
  Gateway._message_content_to_text body
  = match body with
    | JObj d =>
        match d !! "text" with
        | Some t => py_str t
        | None => raw
        end
    | JArr blocks =>
        match Claude.block_parts blocks with
        | [] => py_str body
        | _ => raw
        end
    | _ => raw
    end
  ∧ (∀ blocks, body = JArr blocks → Claude.block_parts blocks = [] →
               raw = EmptyString).
Proof.
  cbv zeta. unfold Claude.raw_text. cbn [content]. split.
  - destruct body as [| | | | s | blocks | d]; try done.
    cbn [Gateway._message_content_to_text].
    by destruct (Claude.block_parts blocks).
  - by intros blocks -> ->.
Qed.

(** ** Every model call starts afresh *)

Lemma turn_chats `{Runtime} (system_prompt line : string)
    (messages : list (string * string)) :
  Loop.Chat messages ∈ (Loop.turn system_prompt line).1 →
  let user_input := Str.strip line in
  let first := [("system", system_prompt); ("user", user_input)] in
  String.eqb user_input EmptyString = false
  ∧ Loop.is_exit (Str.lower user_input) = false
  ∧ (messages = first
     ∨ ∃ first_response tool_name arguments normalized tool_result,
         claude_chat first = Ok first_response
         ∧ Agent.interpret (Claude.text_from_message first_response)
           = Agent.ToolCall tool_name arguments
         ∧ Agent.normalize tool_name arguments = Ok normalized
         ∧ call_tool tool_name normalized = Ok tool_result
         ∧ messages
           = [("system", Loop.followup_system);
              ("user",
               Loop.followup_user user_input tool_name
                 (Agent.extract_tool_result_text tool_result))]).
Proof.
  cbv zeta. unfold Loop.turn.
  destruct (String.eqb _ _); [by intros ?%elem_of_nil |].
  destruct (Loop.is_exit _);
    [by intros [[=] | ?%elem_of_nil]%elem_of_cons |].
  intros Hin. split; [done |]. split; [done |].
  destruct (claude_chat _) as [first_response | e] eqn:Hchat.
  - destruct (Agent.interpret _)
      as [raw clean | answer | tool_name arguments | obj | e] eqn:Hi;
      cbn [Loop.dispatch fst] in Hin;
      try (by apply elem_of_cons in Hin as [[= ->] | Hin];
           [left | apply elem_of_cons in Hin as [[=] | ?%elem_of_nil]]);
      try (by apply elem_of_cons in Hin as [[= ->] | ?%elem_of_nil]; left).
    unfold Loop.run_tool in Hin.
    destruct (Agent.normalize tool_name arguments) as [normalized | e] eqn:Hn;
      [| by apply elem_of_cons in Hin as [[= ->] | ?%elem_of_nil]; left].
    destruct (call_tool tool_name normalized) as [r | e] eqn:Hcall;
      [destruct (claude_chat _) as [second | e] in Hin |];
      cbn [fst app] in Hin;
      repeat (apply elem_of_cons in Hin as [Hin | Hin];
              [try discriminate Hin; injection Hin as ->;
               first [by left
                     | right; by exists first_response, tool_name, arguments,
                                  normalized, r] |]);
      by apply elem_of_nil in Hin.
  - by apply elem_of_cons in Hin as [[= ->] | ?%elem_of_nil]; left.
Qed.

(** X24. The loop keeps no list of messages from one line to the next:
    every model call it makes carries exactly two messages, built from one
    input line.  A decision call carries the system prompt and that line,
    stripped, which is neither empty nor an exit word.  A synthesis call
    carries the fixed follow-up instruction and the text built from the
    same line, the tool name of the directive read in the reply to the
    decision call of that line, and the text taken from the result of the
    tool call made with that name and the normalized arguments. *)
Theorem model_calls_are_stateless `{Runtime} (system_prompt : string)
    (lines : list string) (messages : list (string * string)) :
  Loop.Chat messages ∈ (Loop.chat_with_tools system_prompt lines).1 →
  ∃ line,
    let first := [("system", system_prompt); ("user", Str.strip line)] in
    line ∈ lines
    ∧ String.eqb (Str.strip line) EmptyString = false
    ∧ Loop.is_exit (Str.lower (Str.strip line)) = false
    ∧ (messages = first
       ∨ ∃ first_response tool_name arguments normalized tool_result,
           claude_chat first = Ok first_response
           ∧ Agent.interpret (Claude.text_from_message first_response)
             = Agent.ToolCall tool_name arguments
           ∧ Agent.normalize tool_name arguments = Ok normalized
           ∧ call_tool tool_name normalized = Ok tool_result
           ∧ messages
             = [("system", Loop.followup_system);
                ("user",
                 Loop.followup_user (Str.strip line) tool_name
                   (Agent.extract_tool_result_text tool_result))]).
Proof.
  induction lines as [|line rest IH]; [by intros ?%elem_of_nil |].
  intros Hin.
  assert (Loop.Chat messages ∈ (Loop.turn system_prompt line).1
          ∨ Loop.Chat messages ∈ (Loop.chat_with_tools system_prompt rest).1)
    as [Hhere | Hlater].
  { cbn [Loop.chat_with_tools] in Hin.
    destruct (Loop.turn system_prompt line) as [events c].
    destruct (Loop.chat_with_tools system_prompt rest) as [later c'].
    destruct c; cbn [fst] in *; [| by left | by left].
    by apply elem_of_app in Hin. }
  - exists line. cbv zeta. split; [by left |].
    by apply (turn_chats system_prompt line messages).
  - destruct (IH Hlater) as (l & Hl & Hrest). exists l.
    cbv zeta. split; [by right | done].
Qed.

(** The synthesis call of the line that asks for the report. *)
Lemma model_calls_are_stateless_witness :
  ∃ line,
    let first := [("system", "SYS"); ("user", Str.strip line)] in
    line ∈ ["hola"; "lee el informe"]
    ∧ String.eqb (Str.strip line) EmptyString = false
    ∧ Loop.is_exit (Str.lower (Str.strip line)) = false
    ∧ ([("system", Loop.followup_system);
        ("user",
         @Loop.followup_user Sample.runtime "lee el informe"
           (JStr "read_doc_contents")
           "The report details the state of a 20m condenser tower.")]
       = first
       ∨ ∃ first_response tool_name arguments normalized tool_result,
           @claude_chat Sample.runtime first = Ok first_response
           ∧ @Agent.interpret Sample.runtime
               (@Claude.text_from_message Sample.runtime first_response)
             = Agent.ToolCall tool_name arguments
           ∧ Agent.normalize tool_name arguments = Ok normalized
           ∧ @call_tool Sample.runtime tool_name normalized = Ok tool_result
           ∧ [("system", Loop.followup_system);
              ("user",
               @Loop.followup_user Sample.runtime "lee el informe"
                 (JStr "read_doc_contents")
                 "The report details the state of a 20m condenser tower.")]
             = [("system", Loop.followup_system);
                ("user",
                 @Loop.followup_user Sample.runtime (Str.strip line) tool_name
                   (@Agent.extract_tool_result_text Sample.runtime
                      tool_result))]).
Proof.
  apply (@model_calls_are_stateless Sample.runtime "SYS"
           ["hola"; "lee el informe"]).
  vm_compute. do 6 apply list_elem_of_further. apply list_elem_of_here.
Defined.

(** ** Normalizing twice *)

Lemma first_present_None aliases (o : gmap string json) :
  Spec.first_present aliases o = None → ∀ a, a ∈ aliases → o !! a = None.
Proof.
  induction aliases as [|x aliases IH]; simpl; [by intros _ a ?%elem_of_nil |].
  destruct (o !! x) eqn:E; [done |].
  intros H a [-> | Ha]%elem_of_cons; [done | by apply IH].
Qed.

Lemma apply_row_settled row (o : gmap string json) :
  Rows.settled row (Spec.apply_row row o).
Proof.
  unfold Rows.settled, Spec.apply_row.
  destruct (o !! row.1) eqn:Hc; [left; by rewrite Hc |].
  destruct (Spec.first_present row.2 o) as [[a v]|] eqn:E.
  - left. by rewrite lookup_insert_eq.
  - right. by apply first_present_None.
Qed.

Lemma apply_row_fixed row (o : gmap string json) :
  Rows.settled row o → Spec.apply_row row o = o.
Proof.
  intros [[v Hv] | Hnone]; [| by apply apply_row_no_alias].
  unfold Spec.apply_row. by rewrite Hv.
Qed.

Lemma settled_other_row row other (o : gmap string json) :
  row.1 ≠ other.1 → row.1 ∉ other.2 →
  (∀ a, a ∈ row.2 → a ≠ other.1 ∧ a ∉ other.2) →
  Rows.settled row o → Rows.settled row (Spec.apply_row other o).
Proof.
  intros Hc Hca Ha [Hsome | Hnone]; [left | right].
  - by rewrite apply_row_other.
  - intros a Hin. destruct (Ha a Hin). rewrite apply_row_other by done.
    by apply Hnone.
Qed.

Lemma normalized_twice (o : gmap string json) :
  Spec.normalized (Spec.normalized o) = Spec.normalized o.
Proof.
  rewrite (normalized_rows (Spec.normalized o)).
  set (old := ("old_str", ["old_string"; "old"])).
  set (new := ("new_str", ["new_string"; "new_striing"; "new"])).
  assert (Rows.settled old (Spec.normalized o)) as Hold.
  { rewrite normalized_rows. fold old new.
    apply settled_other_row; [done | set_solver | | apply apply_row_settled].
    intros a Ha. cbn [snd old] in Ha.
    apply elem_of_cons in Ha as [-> | Ha];
      [| apply list_elem_of_singleton in Ha as ->]; split; set_solver. }
  rewrite (apply_row_fixed old) by done.
  apply apply_row_fixed. rewrite normalized_rows. apply apply_row_settled.
Qed.

Lemma normalize_keeps_non_mapping (arguments normalized : json) :
  (∀ o, arguments ≠ JObj o) →
  Agent.normalize (JStr "edit_document") arguments = Ok normalized →
  normalized = arguments.
Proof.
  intros Hno. unfold Agent.normalize.
  change (Py.is_str "edit_document" (JStr "edit_document")) with true.
  cbv iota. unfold Agent.normalize_old, Agent.rename.
  destruct arguments as [| b | z | f | s | l | o]; try done;
    [| | by destruct (Hno o)]; cbn [Py.contains Py.pop bind].
  - destruct (Str.contains "old_str" s); destruct (Str.contains "old_string" s);
      destruct (Str.contains "old" s); cbn [negb bind]; try done;
      unfold Agent.normalize_new, Agent.rename; cbn [Py.contains Py.pop bind];
      destruct (Str.contains "new_str" s);
      destruct (Str.contains "new_string" s);
      destruct (Str.contains "new_striing" s);
      destruct (Str.contains "new" s); cbn [negb bind]; try done;
      by intros [= <-].
  - destruct (existsb (Py.is_str "old_str") l);
      destruct (existsb (Py.is_str "old_string") l);
      destruct (existsb (Py.is_str "old") l); cbn [negb bind]; try done;
      unfold Agent.normalize_new, Agent.rename; cbn [Py.contains Py.pop bind];
      destruct (existsb (Py.is_str "new_str") l);
      destruct (existsb (Py.is_str "new_string") l);
      destruct (existsb (Py.is_str "new_striing") l);
      destruct (existsb (Py.is_str "new") l); cbn [negb bind]; try done;
      by intros [= <-].
Qed.

(** X25. Normalization is idempotent on every input: whatever the tool
    name and whatever the arguments (a mapping with any mixture of
    canonical names and aliases, or a value that is not a mapping), when
    normalization returns, normalizing its result again returns the same
    value. *)
Theorem normalize_twice (tool_name arguments normalized : json) :
  Agent.normalize tool_name arguments = Ok normalized →
  Agent.normalize tool_name normalized = Ok normalized.
Proof.
  destruct (Py.is_str "edit_document" tool_name) eqn:Hname.
  - destruct tool_name as [| | | | name | |]; try done.
    apply String.eqb_eq in Hname as ->.
    destruct arguments as [| b | z | f | s | l | o].
    1-6: intros Hn; assert (Hn' := Hn);
         apply normalize_keeps_non_mapping in Hn' as ->; done.
    rewrite normalize_dict. intros [= <-].
    by rewrite normalize_dict, normalized_twice.
  - rewrite !normalize_other_tool by done. by intros [= ->].
Qed.

Lemma normalize_twice_witness :
  Agent.normalize (JStr "edit_document")
    (JObj (<["old_str" := JStr "foo"]> {[ "old" := JStr "baz" ]}))
  = Ok (JObj (<["old_str" := JStr "foo"]> {[ "old" := JStr "baz" ]})).
Proof.
  apply (normalize_twice (JStr "edit_document") (JObj Sample.args_two_aliases)).
  reflexivity.
Defined.

(** ** Answers that [chat] cannot read *)

(** X26. What [chat] raises.  An exception of the request (connection,
    status, decoding) goes through unchanged.  An answer that is not a
    mapping raises [TypeError]; a mapping without "choices" (an error
    report of the server, for instance) raises [KeyError] on that key; an
    empty list of choices raises [IndexError]; a first choice without
    "message", or a message without "content", raises [KeyError] on that
    key.  None of them is caught. *)
Theorem chat_raises `{Runtime} `{Endpoint} (me : Gateway.self)
    (messages : list (gmap string json)) (system : option string)
    (temperature : spec_float) (stop_sequences : option (list string)) :
  let reply := Gateway.chat me messages system temperature stop_sequences in
  match post_json (Gateway.base_url me +:+ "/chat/completions")
          ("Bearer " +:+ Gateway.api_key me)
          (JObj (Gateway.payload me messages system temperature stop_sequences))
  with
  | Raise e => reply = Raise e
  | Return (JObj data) =>
      match data !! "choices" with
      | None => reply = Raise (Builtin (KeyError "choices"))
      | Some (JArr []) => reply = Raise IndexError
      | Some (JArr (JObj choice :: _)) =>
          match choice !! "message" with
          | None => reply = Raise (Builtin (KeyError "message"))
          | Some (JObj message) =>
              message !! "content" = None →
              reply = Raise (Builtin (KeyError "content"))
          | Some _ => reply = Raise (Builtin TypeError)
          end
      | Some (JArr (_ :: _)) => reply = Raise (Builtin TypeError)
      | Some (JObj _) => reply = Raise (KeyError_int 0)
      | Some (JStr EmptyString) => reply = Raise IndexError
      | Some _ => reply = Raise (Builtin TypeError)
      end
  | Return _ => reply = Raise (Builtin TypeError)
  end.
Proof.
  cbv zeta. unfold Gateway.chat, Gateway.to_message.
  destruct (post_json _ _ _) as [data | e]; [| done]. cbn [and_then].
  destruct data as [| | | | | |data]; try done. cbn [Sub.getitem].
  destruct (data !! "choices") as [choices|]; [| done]. cbn [and_then].
  destruct choices as [| | | |[|c s]|[|choice others]|]; try done.
  cbn [Sub.getitem0 and_then].
  destruct choice as [| | | | | |choice]; try done. cbn [Sub.getitem].
  destruct (choice !! "message") as [message|]; [| done]. cbn [and_then].
  destruct message as [| | | | | |message]; try done. cbn [Sub.getitem].
  by intros ->.
Qed.
